(** * utils.py: synthetic disk dataset, one-hot labels, standardisation, plots

    A shallow embedding of [src/utils.py] and the properties of its data
    generator, its one-hot encoder, its standardiser and its plotting code.

    The code is modelled at two levels.

    Exact arithmetic.  The commands of the file are embedded over a world of
    tensors, random stream and trace of effects.
    - A float tensor holds real numbers ([R]); rounding is not modelled.  A
      two-dimensional float tensor is the list of its rows.
    - A long tensor (class indices) is a [list Z]; a bool tensor a [list bool].
    - torch turns a division by zero into inf or nan, values that [R] does not
      have; at this level each division is guarded and signals
      [ZeroDivisionError] instead.
    - Tensors that are mutated in place ([sub_], [div_]) live in a heap and are
      passed by handle, so that aliasing can be stated.
    - matplotlib and [print] are recorded as a trace of events; the random
      generator is a stream of reals in the world.  The calls of matplotlib
      are taken to succeed: the directory [fig/] exists and [plt.scatter]
      gets as many colours as points.  The network passed to
      [train_visualization] is a function of its input.
    This level carries the statements on shapes, on the order of the effects,
    on the files written, on the counts of the confusion matrix and on the
    statistics in exact arithmetic.

    Float32.  Where the truth of a statement depends on the values computed
    (the labels of the points, the elements that [standardize] stores, the
    division by a zero) the kernels are embedded a second time, in module
    [F32], on IEEE binary32 numbers ([spec_float]): every operation is
    rounded to nearest even, and a division by zero returns an infinity or a
    nan as it does in torch. *)

From Stdlib Require Import Reals Lra Lia ZArith SpecFloat.
From stdpp Require Import base list strings.

Open Scope R_scope.

(** ** Exceptions and results *)

Inductive exn : Type :=
| IndexError          (* an index outside a dimension, argmax of an empty row *)
| ZeroDivisionError   (* a division whose divisor is zero *)
| RuntimeError        (* shapes that cannot be broadcast together *)
| InvalidHandle.      (* a handle that names no tensor of the heap *)

Inductive result (A : Type) : Type :=
| Ok (a : A)
| Raise (e : exn).
Arguments Ok {A} a.
Arguments Raise {A} e.

#[global] Instance result_ret : MRet result := fun A a => Ok a.
#[global] Instance result_bind : MBind result := fun A B k m =>
  match m with
  | Ok a => k a
  | Raise e => Raise e
  end.

Fixpoint mapR {A B : Type} (f : A -> result B) (l : list A) : result (list B) :=
  match l with
  | [] => Ok []
  | a :: l' => b ← f a; bs ← mapR f l'; Ok (b :: bs)
  end.

(** ** Tensors *)

Abbreviation matrix := (list (list R)) (only parsing).

Definition Rsum (l : list R) : R := foldr Rplus 0 l.

Definition numel (x : matrix) : nat := length (concat x).

(** Elementwise application, the shape is kept. *)
Definition tmap (f : R -> R) (x : matrix) : matrix := map (map f) x.

(** [x.mean()]: the mean of all elements; of an empty tensor it is 0/0 (nan
    in torch). *)
Definition mean (x : matrix) : result R :=
  if (numel x =? 0)%nat then Raise ZeroDivisionError
  else Ok (Rsum (concat x) / INR (numel x)).

(** [x.std()]: the sample standard deviation of all elements (torch's default
    divides by [numel - 1]); of a single element it is 0/0 (nan in torch). *)
Definition std (x : matrix) : result R :=
  m ← mean x;
  if (numel x - 1 =? 0)%nat then Raise ZeroDivisionError
  else Ok (sqrt (Rsum (map (fun e => (e - m) ^ 2) (concat x)) / INR (numel x - 1))).

(** [x.sub(c)] for a row vector [c] broadcast over the rows of [x]. *)
Definition sub_rows (x : matrix) (c : list R) : matrix :=
  map (fun row => zip_with Rminus row c) x.

(** [x.sum(axis=1)] *)
Definition sum_axis1 (x : matrix) : list R := map Rsum x.

(** [(v < r).long()] *)
Definition lt_long (v : list R) (r : R) : list Z :=
  map (fun d => if Rlt_dec d r then 1%Z else 0%Z) v.

(** [x[:, j]] *)
Definition column (j : nat) (x : matrix) : result (list R) :=
  mapR (fun row => match row !! j with Some e => Ok e | None => Raise IndexError end) x.

(** [x[idx, j]] for a list of row indices. *)
Definition gather (x : matrix) (idx : list nat) (j : nat) : result (list R) :=
  mapR (fun i => match x !! i with
                 | Some row => match row !! j with Some e => Ok e | None => Raise IndexError end
                 | None => Raise IndexError
                 end) idx.

(** The position of the first maximum of [x :: l], scanning from index [i]. *)
Fixpoint argmax_from (best : R) (bi : nat) (i : nat) (l : list R) : nat :=
  match l with
  | [] => bi
  | x :: l' => if Rlt_dec best x then argmax_from x i (S i) l'
               else argmax_from best bi (S i) l'
  end.

Definition argmax_row (row : list R) : result Z :=
  match row with
  | [] => Raise IndexError
  | x :: l => Ok (Z.of_nat (argmax_from x 0 1 l))
  end.

(** [Y.argmax(1)] *)
Definition argmax1 (Y : matrix) : result (list Z) := mapR argmax_row Y.

(** [v == k] *)
Definition eq_scalar (v : list Z) (k : Z) : list bool := map (fun a => (a =? k)%Z) v.

(** [a & b] on one-dimensional bool tensors, with broadcasting of a size-1
    operand. *)
Definition logical_and (a b : list bool) : result (list bool) :=
  if (length a =? length b)%nat then Ok (zip_with andb a b)
  else match a, b with
       | [a0], _ => Ok (map (andb a0) b)
       | _, [b0] => Ok (map (fun e => andb e b0) a)
       | _, _ => Raise RuntimeError
       end.

(** [b.sum()] of a bool tensor: the number of [true]. *)
Definition count_true (b : list bool) : Z := Z.of_nat (length (filter (fun e => e = true) b)).

(** [torch.nonzero(b == True)] *)
Fixpoint nonzero_from (i : nat) (b : list bool) : list nat :=
  match b with
  | [] => []
  | e :: b' => if e then i :: nonzero_from (S i) b' else nonzero_from (S i) b'
  end.
Definition nonzero (b : list bool) : list nat := nonzero_from 0 b.

(** ** to_one_hot *)

(** [y.unique()]; torch also sorts the values, only their number is used. *)
Definition unique (y : list Z) : list Z := remove_dups y.

(** [torch.zeros((n, m))] *)
Definition zeros (n m : nat) : matrix := replicate n (replicate m 0).

(** An index into a dimension of the given size; negative indices count from
    the end, anything else is out of bounds. *)
Definition wrap_index (size : nat) (k : Z) : option nat :=
  if ((0 <=? k) && (k <? Z.of_nat size))%Z then Some (Z.to_nat k)
  else if ((- Z.of_nat size <=? k) && (k <? 0))%Z then Some (Z.to_nat (k + Z.of_nat size))
  else None.

(** [Y[i, k] = v] *)
Definition set_entry (Y : matrix) (i : Z) (k : Z) (v : R) : result matrix :=
  match wrap_index (length Y) i with
  | None => Raise IndexError
  | Some i' =>
      match Y !! i' with
      | None => Raise IndexError
      | Some row =>
          match wrap_index (length row) k with
          | None => Raise IndexError
          | Some j => Ok (<[i' := <[j := v]> row]> Y)
          end
      end
  end.

(** [Y[rows, cols] = v] with two index lists of equal length. *)
Fixpoint index_put (Y : matrix) (idx : list (Z * Z)) (v : R) : result matrix :=
  match idx with
  | [] => Ok Y
  | (i, k) :: idx' => Y' ← set_entry Y i k v; index_put Y' idx' v
  end.

(** [range(n)] *)
Definition range (n : nat) : list Z := map Z.of_nat (seq 0 n).

Definition to_one_hot (y : list Z) : result matrix :=
  let Y := zeros (length y) (length (unique y)) in
  index_put Y (zip (range (length y)) y) 1.

(** ** The world: heap of mutable tensors, random stream, trace of effects *)

Definition loc : Type := nat.

(** The [c=] argument of [plt.scatter]: one colour per point, or one colour. *)
Inductive colours : Type :=
| PerPoint (cs : list string)
| Single (c : string).

Inductive event : Type :=
| Figure                                             (* plt.figure() *)
| Plot (xs : list Z) (ys : list R) (fmt : string)    (* plt.plot(xs, ys, fmt) *)
| Scatter (xs ys : list R) (c : colours) (alpha : option R) (label : option string)
| Matshow (m : list (list Z)) (cmap : string)        (* plt.matshow(m, cmap=..) *)
| Text (i j : nat) (n : Z)                           (* plt.text(i, j, '{:d}'.format(n), ..) *)
| Xlabel (s : string)
| Ylabel (s : string)
| Grid
| Legend
| Print (s : string)
| Savefig (fname : string).

Record world : Type := World {
  heap : list matrix;      (* the tensor with handle [l] is [heap !! l] *)
  rng : nat -> R;          (* the values the random generator will produce *)
  rng_pos : nat;           (* how many of them have been consumed *)
  trace : list event       (* the effects so far, oldest first *)
}.

Definition M (A : Type) : Type := world -> result A * world.

#[global] Instance M_ret : MRet M := fun A a w => (Ok a, w).
#[global] Instance M_bind : MBind M := fun A B k m w =>
  match m w with
  | (Ok a, w') => k a w'
  | (Raise e, w') => (Raise e, w')
  end.

(** A pure computation that may raise. *)
Definition lift {A : Type} (r : result A) : M A := fun w => (r, w).

Definition raise {A : Type} (e : exn) : M A := lift (Raise e).

Definition emit (ev : event) : M unit := fun w =>
  (Ok tt, World (heap w) (rng w) (rng_pos w) (trace w ++ [ev])).

Definition alloc (t : matrix) : M loc := fun w =>
  (Ok (length (heap w)), World (heap w ++ [t]) (rng w) (rng_pos w) (trace w)).

Definition read (x : loc) : M matrix := fun w =>
  match heap w !! x with
  | Some t => (Ok t, w)
  | None => (Raise InvalidHandle, w)
  end.

Definition write (x : loc) (t : matrix) : M unit := fun w =>
  match heap w !! x with
  | Some _ => (Ok tt, World (<[x := t]> (heap w)) (rng w) (rng_pos w) (trace w))
  | None => (Raise InvalidHandle, w)
  end.

(** The files written by [plt.savefig], oldest first. *)
Definition saved_files (tr : list event) : list string :=
  omap (fun ev => match ev with Savefig f => Some f | _ => None end) tr.

(** [torch.FloatTensor(n, m).uniform_(0, 1)]: a new [n] x [m] tensor filled
    with the next [n * m] values of the generator. *)
Definition sample (g : nat -> R) (pos n m : nat) : matrix :=
  map (fun i => map (fun j => g (pos + i * m + j)%nat) (seq 0 m)) (seq 0 n).

Definition FloatTensor_uniform (n m : nat) : M loc := fun w =>
  alloc (sample (rng w) (rng_pos w) n m)
        (World (heap w) (rng w) (rng_pos w + n * m) (trace w)).

(** ** standardize *)

(** [x.sub_(m)]: in place, returns [x] itself. *)
Definition sub_ (x : loc) (m : R) : M loc :=
  t ← read x; write x (tmap (fun e => e - m) t);; mret x.

(** [x.div_(s)]: in place, returns [x] itself. *)
Definition div_ (x : loc) (s : R) : M loc :=
  if Req_dec_T s 0 then raise ZeroDivisionError
  else t ← read x; write x (tmap (fun e => e / s) t);; mret x.

Definition standardize (x : loc) (mean std : R) : M loc :=
  y ← sub_ x mean; div_ y std.

(** ** plot_dataset *)

Definition newline : string := String (Ascii.ascii_of_nat 10) EmptyString.

Definition plot_dataset (data : loc) (labels : matrix) (name : string) : M unit :=
  x ← read data;
  xs ← lift (column 0 x);
  ys ← lift (column 1 x);
  cls ← lift (argmax1 labels);
  emit (Scatter xs ys (PerPoint (map (fun p => if (p =? 0)%Z then "r" else "b") cls))
                None None);;
  let fname := "fig/" +:+ name +:+ ".png" in
  emit (Print ("Plot of " +:+ name +:+ " data saved under " +:+ fname +:+ " " +:+ newline));;
  emit (Savefig fname).

(** ** load_data *)

Definition N : nat := 1000.
Definition r2 : R := 1 / (2 * PI).
Definition center : list R := [1/2; 1/2].

(** [(x.sub(center).pow(2).sum(axis=1) < r2).long()] *)
Definition disk_labels (x : matrix) : list Z :=
  lt_long (sum_axis1 (tmap (fun e => e ^ 2) (sub_rows x center))) r2.

Definition load_data (plotting : bool) : M (loc * matrix * loc * matrix) :=
  trainX ← FloatTensor_uniform N 2;
  testX ← FloatTensor_uniform N 2;
  xtr ← read trainX;
  trainY ← lift (to_one_hot (disk_labels xtr));
  xte ← read testX;
  testY ← lift (to_one_hot (disk_labels xte));
  mean_ ← lift (mean xtr);
  std_ ← lift (std xtr);
  (if plotting then
     plot_dataset trainX trainY "train";;
     plot_dataset testX testY "test"
   else mret tt);;
  a ← standardize trainX mean_ std_;
  b ← standardize testX mean_ std_;
  mret (a, trainY, b, testY).

(** ** train_visualization *)

(** [testY.argmax(1)] is evaluated once here; the source evaluates the same
    pure expression in each of the four masks. *)
Definition train_visualization (net : matrix -> result matrix) (losses : list R)
    (testX : loc) (testY : matrix) : M unit :=
  emit Figure;;
  emit (Plot (map Z.of_nat (seq 1 (length losses))) losses "k--");;
  emit (Xlabel "Epoch");;
  emit (Ylabel "Loss");;
  emit Grid;;
  let loss_fname := "fig/loss.png" in
  emit (Print ("Plot of training loss saved under " +:+ loss_fname));;
  emit (Savefig loss_fname);;
  x ← read testX;
  out ← lift (net x);
  pred ← lift (argmax1 out);
  truth ← lift (argmax1 testY);
  b00 ← lift (logical_and (eq_scalar pred 0) (eq_scalar truth 0));
  b01 ← lift (logical_and (eq_scalar pred 0) (eq_scalar truth 1));
  b10 ← lift (logical_and (eq_scalar pred 1) (eq_scalar truth 0));
  b11 ← lift (logical_and (eq_scalar pred 1) (eq_scalar truth 1));
  emit Figure;;
  let conf := [[count_true b00; count_true b10]; [count_true b01; count_true b11]] in
  emit (Matshow conf "tab10");;
  emit (Text 0 0 (count_true b00));;
  emit (Text 0 1 (count_true b10));;
  emit (Text 1 0 (count_true b01));;
  emit (Text 1 1 (count_true b11));;
  emit (Xlabel "True Class");;
  emit (Ylabel "Predicted class");;
  let conf_fname := "fig/confmat.png" in
  emit (Print ("Plot of confusion matrix saved under " +:+ conf_fname));;
  emit (Savefig conf_fname);;
  emit Figure;;
  let correct0 := nonzero b00 in
  let correct1 := nonzero b11 in
  x0 ← lift (gather x correct0 0);
  y0 ← lift (gather x correct0 1);
  emit (Scatter x0 y0 (Single "r") (Some (2/10)) (Some "class 0"));;
  x1 ← lift (gather x correct1 0);
  y1 ← lift (gather x correct1 1);
  emit (Scatter x1 y1 (Single "b") (Some (2/10)) (Some "class 1"));;
  let errors := nonzero b01 ++ nonzero b10 in
  xe ← lift (gather x errors 0);
  ye ← lift (gather x errors 1);
  emit (Scatter xe ye (Single "k") None (Some "errors"));;
  emit Legend;;
  let pred_fname := "fig/predictions.png" in
  emit (Print ("Plot of test predictions saved under " +:+ pred_fname));;
  emit (Savefig pred_fname).

(** * The numeric kernels in float32

    The definitions above compute in exact arithmetic.  What the code
    computes on a [FloatTensor] is rounded: this module gives, for the
    statements whose truth depends on the values computed, the labelling of
    the points (lines 29-35 of [load_data]) and [standardize] in IEEE
    binary32, every operation rounded to nearest even, a division by zero
    giving an infinity or a nan as in torch. *)

Module F32.

Definition prec : Z := 24.
Definition emax : Z := 128.

Abbreviation tensor := (list (list spec_float)) (only parsing).

Definition add (a b : spec_float) : spec_float := SFadd prec emax a b.
Definition sub (a b : spec_float) : spec_float := SFsub prec emax a b.
Definition mul (a b : spec_float) : spec_float := SFmul prec emax a b.
Definition div (a b : spec_float) : spec_float := SFdiv prec emax a b.

Definition zero : spec_float := S754_zero false.
(** 0.5 *)
Definition half : spec_float := S754_finite false 8388608 (-24).

(** [math.pi]: the binary64 number nearest to pi. *)
Definition math_pi : spec_float := S754_finite false 7074237752028440 (-51).

(** [1/(2*math.pi)], a Python float: binary64. *)
Definition r2 : spec_float :=
  SFdiv 53 1024 (S754_finite false 4503599627370496 (-52))
        (SFmul 53 1024 (S754_finite false 4503599627370496 (-51)) math_pi).

(** A Python float that meets a float32 tensor is rounded to float32. *)
Definition to_float32 (x : spec_float) : spec_float :=
  match x with
  | S754_finite s m e => binary_round prec emax s m e
  | _ => x
  end.

Definition tmap (f : spec_float -> spec_float) (x : tensor) : tensor := map (map f) x.

(** [torch.FloatTensor([0.5, 0.5])] *)
Definition center : list spec_float := [half; half].

(** [x.sub(c)] for a row vector [c] broadcast over the rows of [x]. *)
Definition sub_rows (x : tensor) (c : list spec_float) : tensor :=
  map (fun row => zip_with sub row c) x.

(** [x.pow(2)]: each element times itself. *)
Definition pow2 (x : tensor) : tensor := tmap (fun e => mul e e) x.

(** [x.sum(axis=1)] *)
Definition sum_axis1 (x : tensor) : list spec_float := map (foldl add zero) x.

(** [(v < r).long()] *)
Definition lt_long (v : list spec_float) (r : spec_float) : list Z :=
  map (fun d => if SFltb d r then 1%Z else 0%Z) v.

(** [(x.sub(center).pow(2).sum(axis=1) < r2).long()] *)
Definition disk_labels (x : tensor) : list Z :=
  lt_long (sum_axis1 (pow2 (sub_rows x center))) (to_float32 r2).

(** [torch.FloatTensor(n, m).uniform_(0, 1)] filled with the values of the
    generator [g] from position [pos] on. *)
Definition sample (g : nat -> spec_float) (pos n m : nat) : tensor :=
  map (fun i => map (fun j => g (pos + i * m + j)%nat) (seq 0 m)) (seq 0 n).

(** Lines 29-35 of [load_data]: the two samples and their label matrices.
    The rest of [load_data] returns [trainY] and [testY] as they are here. *)
Definition load_data_generate (g : nat -> spec_float) (pos : nat)
    : result (tensor * matrix * tensor * matrix) :=
  let trainX := sample g pos N 2 in
  let testX := sample g (pos + N * 2) N 2 in
  trainY ← to_one_hot (disk_labels trainX);
  testY ← to_one_hot (disk_labels testX);
  Ok (trainX, trainY, testX, testY).

(** Commands on a heap of float32 tensors. *)
Definition M (A : Type) : Type := list tensor -> result A * list tensor.

#[global] Instance M_ret : MRet M := fun A a h => (Ok a, h).
#[global] Instance M_bind : MBind M := fun A B k m h =>
  match m h with
  | (Ok a, h') => k a h'
  | (Raise e, h') => (Raise e, h')
  end.

Definition read (x : loc) : M tensor := fun h =>
  match h !! x with
  | Some t => (Ok t, h)
  | None => (Raise InvalidHandle, h)
  end.

Definition write (x : loc) (t : tensor) : M unit := fun h =>
  match h !! x with
  | Some _ => (Ok tt, <[x := t]> h)
  | None => (Raise InvalidHandle, h)
  end.

(** [x.sub_(m)]: in place, returns [x] itself. *)
Definition sub_ (x : loc) (m : spec_float) : M loc :=
  t ← read x; write x (tmap (fun e => sub e m) t);; mret x.

(** [x.div_(s)]: in place, returns [x] itself; no test of [s]. *)
Definition div_ (x : loc) (s : spec_float) : M loc :=
  t ← read x; write x (tmap (fun e => div e s) t);; mret x.

Definition standardize (x : loc) (mean std : spec_float) : M loc :=
  y ← sub_ x mean; div_ y std.

End F32.

(** * Vocabulary of the statements *)

(** Row [i] of the result: zeros with a one at the (wrapped) index [y[i]]. *)
Definition one_hot_row (C : nat) (k : Z) : result (list R) :=
  match wrap_index C k with
  | Some j => Ok (<[j := 1]> (replicate C 0))
  | None => Raise IndexError
  end.

(** The rows of the indicator matrix for labels in {0, 1}. *)
Definition hot2 (k : Z) : list R := if (k =? 0)%Z then [1; 0] else [0; 1].

(** Column [j] of a sample. *)
Definition sample_column (g : nat -> R) (pos n m j : nat) : list R :=
  map (fun i => g (pos + i * m + j)%nat) (seq 0 n).

(** The label of one point: 1 inside the disk, 0 outside. *)
Definition label_of (row : list R) : Z :=
  if Rlt_dec (Rsum (map (fun e => e ^ 2) (zip_with Rminus row center))) r2 then 1%Z else 0%Z.

(** What one call of [plot_dataset] adds to the trace. *)
Definition plot_events (xs ys : list R) (cls : list Z) (name : string) : list event :=
  [ Scatter xs ys (PerPoint (map (fun p => if (p =? 0)%Z then "r" else "b") cls)) None None;
    Print ("Plot of " +:+ name +:+ " data saved under "
           +:+ ("fig/" +:+ name +:+ ".png") +:+ " " +:+ newline);
    Savefig ("fig/" +:+ name +:+ ".png") ].

(** The points drawn for the training set and for the test set. *)
Definition train_raw (w : world) : matrix := sample (rng w) (rng_pos w) N 2.

Definition test_raw (w : world) : matrix := sample (rng w) (rng_pos w + N * 2) N 2.

(** The events of the two calls of [plot_dataset] in [load_data]: the
    coordinates are those of the samples as drawn. *)
Definition load_data_plots (w : world) : list event :=
  plot_events (sample_column (rng w) (rng_pos w) N 2 0)
              (sample_column (rng w) (rng_pos w) N 2 1)
              (disk_labels (train_raw w)) "train"
  ++ plot_events (sample_column (rng w) (rng_pos w + N * 2) N 2 0)
                 (sample_column (rng w) (rng_pos w + N * 2) N 2 1)
                 (disk_labels (test_raw w)) "test".

(** [load_data] in one step: the outcome and the final world, from the
    labels and the statistics of the samples. *)
Definition load_data_outcome (plotting : bool) (w : world)
    : result (loc * matrix * loc * matrix) * world :=
  let xtr := train_raw w in
  let xte := test_raw w in
  let h := length (heap w) in
  let pos := (rng_pos w + N * 2 + N * 2)%nat in
  match (trainY ← to_one_hot (disk_labels xtr);
         testY ← to_one_hot (disk_labels xte);
         m ← mean xtr;
         s ← std xtr;
         Ok (trainY, testY, m, s)) with
  | Raise e => (Raise e, World (heap w ++ [xtr; xte]) (rng w) pos (trace w))
  | Ok (trainY, testY, m, s) =>
      let tr := trace w ++ (if plotting then load_data_plots w else []) in
      if Req_dec_T s 0 then
        (Raise ZeroDivisionError,
         World (heap w ++ [tmap (fun e => e - m) xtr; xte]) (rng w) pos tr)
      else
        (Ok (h, trainY, S h, testY),
         World (heap w ++ [tmap (fun e => (e - m) / s) xtr; tmap (fun e => (e - m) / s) xte])
               (rng w) pos tr)
  end.

(** A stream of values of [0, 1): the training points alternate between
    (1/2, 1/2), the centre of the disk, and (0, 0), a corner outside it; the
    test points between (1/2, 1/2) and (0, 1/4), outside the disk as well. *)
Definition demo_rng (i : nat) : R :=
  match (i mod 4)%nat with
  | 0%nat | 1%nat => 1/2
  | 2%nat => 0
  | _ => if (i <? 2000)%nat then 0 else 1/4
  end.

Definition demo : world := World [] demo_rng 0 [].

(** Both labels occur among the points of [x]. *)
Definition both_labels (x : matrix) : Prop :=
  0%Z ∈ disk_labels x /\ 1%Z ∈ disk_labels x.

(** Whatever the world, the command saves the files [L], in that order; a
    run that raises has saved a prefix of them. *)
Definition files_within {A : Type} (m : M A) (L : list string) : Prop :=
  forall w, exists l,
    saved_files (trace (m w).2) = saved_files (trace w) ++ l /\
    l `prefix_of` L /\
    (forall a, (m w).1 = Ok a -> l = L).

(** The mask "predicted as [p] and true class [t]". *)
Definition mask (pred truth : list Z) (p t : Z) : list bool :=
  zip_with andb (eq_scalar pred p) (eq_scalar truth t).

(** The trace only grows. *)
Definition grows {A : Type} (m : M A) : Prop :=
  forall w, trace w `prefix_of` trace (m w).2.

(** Three test points; the network returns its input as scores, which puts
    the first and the third point in class 0 and the second in class 1; the
    true classes are 0, 1 and 1. *)
Definition tv_x : matrix := [[1; 0]; [0; 1]; [1; 0]].

Definition tv_y : matrix := [[1; 0]; [0; 1]; [0; 1]].

Definition tv_net (x : matrix) : result matrix := Ok x.

Definition tv_world : world := World [tv_x] (fun _ => 0) 0 [].

(** The number of positions at which two class vectors agree. *)
Definition agreements (pred truth : list Z) : Z :=
  count_true (zip_with Z.eqb pred truth).

(** The real number that a finite float stands for. *)
Definition SF2R (f : spec_float) : R :=
  match f with
  | S754_finite s m e => (if s then -1 else 1) * IZR (Zpos m) * powerRZ 2 e
  | _ => 0
  end.

(** An infinity or a nan. *)
Definition non_finite (f : spec_float) : bool :=
  match f with
  | S754_infinity _ | S754_nan => true
  | _ => false
  end.

(** The test of the disk as float32 computes it: the two differences to
    0.5, their squares and the sum of the squares are each rounded, and the
    sum is compared with 10680707 * 2^-26, the float32 nearest to
    1/(2 pi). *)
Definition inside32 (px py : spec_float) : bool :=
  SFltb (SFadd 24 128
           (SFmul 24 128 (SFsub 24 128 px (S754_finite false 8388608 (-24)))
                         (SFsub 24 128 px (S754_finite false 8388608 (-24))))
           (SFmul 24 128 (SFsub 24 128 py (S754_finite false 8388608 (-24)))
                         (SFsub 24 128 py (S754_finite false 8388608 (-24)))))
        (S754_finite false 10680707 (-26)).

(** The float32 numbers 0.25, 1, 2, 3, 5, -1 and 2^24. *)
Definition f32_quarter : spec_float := S754_finite false 8388608 (-25).
Definition f32_one : spec_float := S754_finite false 8388608 (-23).
Definition f32_two : spec_float := S754_finite false 8388608 (-22).
Definition f32_three : spec_float := S754_finite false 12582912 (-22).
Definition f32_five : spec_float := S754_finite false 10485760 (-21).
Definition f32_minus_one : spec_float := S754_finite true 8388608 (-23).
Definition f32_2p24 : spec_float := S754_finite false 8388608 1.

(** A stream whose points are all on the edge [px = 0], outside the disk:
    the first point is (0, 0.25), the others are (0, 0). *)
Definition corner32 (i : nat) : spec_float :=
  if (i =? 1)%nat then f32_quarter else F32.zero.

(** A stream whose points alternate between (0.5, 0.5) and (0, 0). *)
Definition demo32 (i : nat) : spec_float :=
  match (i mod 4)%nat with
  | 0%nat | 1%nat => F32.half
  | _ => F32.zero
  end.

(** Whether point [i] of the set drawn from position [off] of the stream
    passes the test of the disk. *)
Definition inside_at (g : nat -> spec_float) (off i : nat) : bool :=
  inside32 (g (off + 2 * i)%nat) (g (off + 2 * i + 1)%nat).

(** [Y] holds the labels of the 1000 points of [X], drawn from position
    [off]: point [i] has the two values drawn for it and the label 1 when it
    passes the test, 0 otherwise; when both labels occur in the set, row [i]
    of [Y] has two columns with the 1 in the column of the label; when no
    point passes, every row has the single column [1]. *)
Definition labelled32 (g : nat -> spec_float) (off : nat) (X : F32.tensor) (Y : matrix)
    : Prop :=
  length X = 1000%nat /\ length Y = 1000%nat /\
  forall i, (i < 1000)%nat ->
    X !! i = Some [g (off + 2 * i)%nat; g (off + 2 * i + 1)%nat] /\
    F32.disk_labels X !! i = Some (if inside_at g off i then 1%Z else 0%Z) /\
    ((exists a b, (a < 1000)%nat /\ (b < 1000)%nat /\
        inside_at g off a = true /\ inside_at g off b = false) ->
     Y !! i = Some (if inside_at g off i then [0; 1] else [1; 0])) /\
    ((forall a, (a < 1000)%nat -> inside_at g off a = false) -> Y !! i = Some [1]).




(** * Properties *)

(** ** Results *)

Lemma bind_Ok {A B : Type} (a : A) (k : A -> result B) : (Ok a ≫= k) = k a.
Proof. reflexivity. Qed.

Lemma bind_Raise {A B : Type} (e : exn) (k : A -> result B) : (Raise e ≫= k) = Raise e.
Proof. reflexivity. Qed.

Lemma mapR_cons {A B : Type} (f : A -> result B) a l :
  mapR f (a :: l) = (b ← f a; bs ← mapR f l; Ok (b :: bs)).
Proof. reflexivity. Qed.

Lemma mapR_Ok {A B : Type} (f : A -> result B) (g : A -> B) l :
  (forall a, a ∈ l -> f a = Ok (g a)) -> mapR f l = Ok (map g l).
Proof.
  induction l as [|a l IH]; intros Hf; [reflexivity|].
  rewrite mapR_cons, Hf by left. rewrite IH; [reflexivity|].
  intros b Hb. apply Hf. by right.
Qed.

Lemma mapR_map {A B C : Type} (f : B -> result C) (g : A -> B) l :
  mapR f (map g l) = mapR (fun a => f (g a)) l.
Proof.
  induction l as [|a l IH]; [reflexivity|].
  cbn [map]. rewrite !mapR_cons, IH. reflexivity.
Qed.

(** All the failures of [f] being the exception [e], one failing element
    makes the traversal fail with [e]. *)
Lemma mapR_Raise {A B : Type} (f : A -> result B) (e : exn) l a :
  a ∈ l -> f a = Raise e -> (forall b e', b ∈ l -> f b = Raise e' -> e' = e) ->
  mapR f l = Raise e.
Proof.
  induction l as [|b l IH]; intros Hin Ha Hall; [by apply elem_of_nil in Hin|].
  rewrite mapR_cons.
  destruct (f b) as [c|e'] eqn:Hb.
  - apply elem_of_cons in Hin as [->|Hin]; [congruence|].
    rewrite bind_Ok, IH; [reflexivity|assumption|assumption|].
    intros b' e'' Hb' Hf. eapply Hall; [by right|eassumption].
  - rewrite bind_Raise. f_equal. eapply Hall; [by left|eassumption].
Qed.

(** ** to_one_hot, row by row *)

Lemma wrap_index_nat (n i : nat) : (i < n)%nat -> wrap_index n (Z.of_nat i) = Some i.
Proof.
  intros Hi. unfold wrap_index.
  replace ((0 <=? Z.of_nat i)%Z && (Z.of_nat i <? Z.of_nat n)%Z) with true.
  - by rewrite Nat2Z.id.
  - symmetry. apply andb_true_iff. split; [apply Z.leb_le|apply Z.ltb_lt]; lia.
Qed.

Lemma wrap_index_lt (n : nat) (k : Z) (j : nat) : wrap_index n k = Some j -> (j < n)%nat.
Proof.
  unfold wrap_index.
  destruct ((0 <=? k)%Z && (k <? Z.of_nat n)%Z) eqn:H1.
  - apply andb_true_iff in H1 as [H1 H2]. apply Z.leb_le in H1. apply Z.ltb_lt in H2.
    intros [= <-]. lia.
  - destruct ((- Z.of_nat n <=? k)%Z && (k <? 0)%Z) eqn:H2; [|discriminate].
    apply andb_true_iff in H2 as [H2 H3]. apply Z.leb_le in H2. apply Z.ltb_lt in H3.
    intros [= <-]. lia.
Qed.

Lemma wrap_index_ge (n : nat) (k : Z) : (Z.of_nat n <= k)%Z -> wrap_index n k = None.
Proof.
  intros Hk. unfold wrap_index.
  replace (k <? Z.of_nat n)%Z with false by (symmetry; apply Z.ltb_ge; lia).
  replace (k <? 0)%Z with false by (symmetry; apply Z.ltb_ge; lia).
  by rewrite !andb_false_r.
Qed.

Lemma index_put_rows (C : nat) (pre : matrix) (y : list Z) :
  index_put (pre ++ replicate (length y) (replicate C 0))
            (zip (map Z.of_nat (seq (length pre) (length y))) y) 1
  = (rows ← mapR (one_hot_row C) y; Ok (pre ++ rows)).
Proof.
  revert pre. induction y as [|k y IH]; intros pre.
  - cbn. by rewrite !app_nil_r.
  - cbn [length seq map zip zip_with replicate index_put].
    rewrite mapR_cons. unfold set_entry.
    rewrite wrap_index_nat by (rewrite length_app; cbn; lia).
    rewrite lookup_app_r, Nat.sub_diag by lia. cbn [lookup list_lookup].
    rewrite length_replicate.
    change (one_hot_row C k) with
      (match wrap_index C k with
       | Some j => Ok (<[j := 1]> (replicate C 0))
       | None => Raise IndexError
       end).
    destruct (wrap_index C k) as [j|]; [|reflexivity].
    rewrite !bind_Ok.
    replace (<[length pre := <[j := 1]> (replicate C 0)]>
               (pre ++ replicate C 0 :: replicate (length y) (replicate C 0)))
      with ((pre ++ [<[j := 1]> (replicate C 0)]) ++ replicate (length y) (replicate C 0)).
    + replace (S (length pre)) with (length (pre ++ [<[j := 1]> (replicate C 0)]))
        by (rewrite length_app; cbn; lia).
      rewrite IH. destruct (mapR (one_hot_row C) y) as [rows|]; [|reflexivity].
      rewrite !bind_Ok. by rewrite <- app_assoc.
    + rewrite <- app_assoc. cbn.
      rewrite insert_app_r_alt, Nat.sub_diag by lia. reflexivity.
Qed.

Lemma to_one_hot_rows (y : list Z) :
  to_one_hot y = mapR (one_hot_row (length (unique y))) y.
Proof.
  unfold to_one_hot, zeros, range.
  pose proof (index_put_rows (length (unique y)) [] y) as H.
  cbn [app length] in H. rewrite H.
  by destruct (mapR _ y).
Qed.

Lemma unique_binary (y : list Z) :
  (forall k, k ∈ y <-> k = 0%Z \/ k = 1%Z) -> length (unique y) = 2%nat.
Proof.
  intros Hy. unfold unique.
  assert (Hp : remove_dups y ≡ₚ [0%Z; 1%Z]).
  { apply NoDup_Permutation.
    - apply NoDup_remove_dups.
    - apply NoDup_cons. split; [|apply NoDup_singleton].
      rewrite list_elem_of_singleton. lia.
    - intros k. rewrite elem_of_remove_dups, Hy.
      rewrite elem_of_cons, list_elem_of_singleton. reflexivity. }
  by rewrite Hp.
Qed.

Lemma to_one_hot_binary (y : list Z) :
  (forall k, k ∈ y <-> k = 0%Z \/ k = 1%Z) -> to_one_hot y = Ok (map hot2 y).
Proof.
  intros Hy. rewrite to_one_hot_rows, (unique_binary y Hy).
  apply mapR_Ok. intros k Hk. apply Hy in Hk as [->| ->]; reflexivity.
Qed.

(** C2. For an integer vector [y] whose distinct values are exactly 0 and 1,
    [to_one_hot y] returns a matrix with [len(y)] rows of 2 columns; row [i]
    sums to 1, holds 1 in column [y[i]] and 0 in the other column. *)
Theorem to_one_hot_indicator (y : list Z) :
  (forall k, k ∈ y <-> k = 0%Z \/ k = 1%Z) ->
  exists Y, to_one_hot y = Ok Y /\ length Y = length y /\
    forall i k, y !! i = Some k ->
      exists row, Y !! i = Some row /\ length row = 2%nat /\ Rsum row = 1 /\
        row !! Z.to_nat k = Some 1 /\
        forall j, (j < 2)%nat -> j <> Z.to_nat k -> row !! j = Some 0.
Proof.
  intros Hy. exists (map hot2 y). split; [by apply to_one_hot_binary|].
  split; [apply length_map|].
  intros i k Hi. exists (hot2 k). split.
  { change (map hot2 y) with (hot2 <$> y). by rewrite list_lookup_fmap, Hi. }
  assert (Hk : k = 0%Z \/ k = 1%Z) by (apply Hy; by eapply list_elem_of_lookup_2).
  destruct Hk as [-> | ->]; cbn.
  - repeat split; [lra|].
    intros [|[|j]] Hj Hne; [lia|reflexivity|lia].
  - repeat split; [lra|].
    intros [|[|j]] Hj Hne; [reflexivity|lia|lia].
Qed.

Lemma to_one_hot_indicator_witness :
  exists Y, to_one_hot [0; 1; 1]%Z = Ok Y /\ length Y = 3%nat /\
    forall i k, [0; 1; 1]%Z !! i = Some k ->
      exists row, Y !! i = Some row /\ length row = 2%nat /\ Rsum row = 1 /\
        row !! Z.to_nat k = Some 1 /\
        forall j, (j < 2)%nat -> j <> Z.to_nat k -> row !! j = Some 0.
Proof.
  apply (to_one_hot_indicator [0; 1; 1]%Z).
  intros k. rewrite !elem_of_cons, elem_of_nil. intuition.
Defined.

Lemma to_one_hot_raises (y : list Z) (k : Z) :
  k ∈ y -> (Z.of_nat (length (unique y)) <= k)%Z -> to_one_hot y = Raise IndexError.
Proof.
  intros Hin Hk. rewrite to_one_hot_rows.
  apply mapR_Raise with (a := k); [assumption| |].
  - unfold one_hot_row. by rewrite wrap_index_ge by lia.
  - intros b e' _. unfold one_hot_row.
    destruct (wrap_index _ b); [discriminate|]. by intros [= <-].
Qed.

(** C10. [to_one_hot] is partial: the matrix has as many columns as [y] has
    distinct values, so when [y] holds a class [k] but fewer than [k + 1]
    distinct values, the assignment indexes out of bounds and the call raises;
    a vector of ones is such an input. *)
Theorem to_one_hot_out_of_bounds (y : list Z) (k : Z) :
  k ∈ y -> (Z.of_nat (length (unique y)) < k + 1)%Z ->
  to_one_hot y = Raise IndexError.
Proof. intros Hin Hk. apply (to_one_hot_raises y k Hin). lia. Qed.

Lemma to_one_hot_out_of_bounds_witness :
  to_one_hot [1; 1; 1]%Z = Raise IndexError.
Proof.
  apply (to_one_hot_out_of_bounds [1; 1; 1]%Z 1%Z).
  - apply list_elem_of_here.
  - vm_compute. reflexivity.
Defined.

(** A vector of zeros is encoded, with a single column. *)
Lemma to_one_hot_zeros (n : nat) :
  (0 < n)%nat -> to_one_hot (replicate n 0%Z) = Ok (replicate n [1]).
Proof.
  intros Hn. rewrite to_one_hot_rows.
  assert (Hu : length (unique (replicate n 0%Z)) = 1%nat).
  { unfold unique.
    assert (Hp : remove_dups (replicate n 0%Z) ≡ₚ [0%Z]).
    { apply NoDup_Permutation; [apply NoDup_remove_dups|apply NoDup_singleton|].
      intros k. rewrite elem_of_remove_dups, elem_of_replicate, list_elem_of_singleton.
      intuition lia. }
    by rewrite Hp. }
  rewrite Hu. rewrite (mapR_Ok _ (fun _ => [1])).
  - f_equal. clear. induction n as [|n IH]; [reflexivity|]. cbn. by rewrite IH.
  - intros a Ha. apply elem_of_replicate in Ha as [-> _]. reflexivity.
Qed.

(** ** Running commands *)

Lemma run_bind {A B : Type} (m : M A) (k : A -> M B) (w : world) :
  (m ≫= k) w = match m w with
               | (Ok a, w') => k a w'
               | (Raise e, w') => (Raise e, w')
               end.
Proof. reflexivity. Qed.

Lemma run_bind_Ok {A B : Type} (m : M A) (k : A -> M B) (w w' : world) (a : A) :
  m w = (Ok a, w') -> (m ≫= k) w = k a w'.
Proof. intros H. by rewrite run_bind, H. Qed.

Lemma run_bind_Raise {A B : Type} (m : M A) (k : A -> M B) (w w' : world) (e : exn) :
  m w = (Raise e, w') -> (m ≫= k) w = (Raise e, w').
Proof. intros H. by rewrite run_bind, H. Qed.

Lemma run_read (x : loc) (t : matrix) (w : world) :
  heap w !! x = Some t -> read x w = (Ok t, w).
Proof. intros H. unfold read. by rewrite H. Qed.

Lemma run_write (x : loc) (t t' : matrix) (w : world) :
  heap w !! x = Some t ->
  write x t' w = (Ok tt, World (<[x := t']> (heap w)) (rng w) (rng_pos w) (trace w)).
Proof. intros H. unfold write. by rewrite H. Qed.

Lemma tmap_tmap (f g : R -> R) (x : matrix) :
  tmap g (tmap f x) = tmap (fun e => g (f e)) x.
Proof.
  unfold tmap. rewrite map_map. apply map_ext. intros row. apply map_map.
Qed.

Lemma run_sub_ (x : loc) (t : matrix) (m : R) (w : world) :
  heap w !! x = Some t ->
  sub_ x m w = (Ok x, World (<[x := tmap (fun e => e - m) t]> (heap w))
                            (rng w) (rng_pos w) (trace w)).
Proof.
  intros H. unfold sub_.
  rewrite (run_bind_Ok _ _ _ _ _ (run_read x t w H)).
  by rewrite (run_bind_Ok _ _ _ _ _ (run_write x t _ w H)).
Qed.

Lemma run_div_ (x : loc) (t : matrix) (s : R) (w : world) :
  heap w !! x = Some t -> s <> 0 ->
  div_ x s w = (Ok x, World (<[x := tmap (fun e => e / s) t]> (heap w))
                            (rng w) (rng_pos w) (trace w)).
Proof.
  intros H Hs. unfold div_. destruct (Req_dec_T s 0) as [?|_]; [contradiction|].
  rewrite (run_bind_Ok _ _ _ _ _ (run_read x t w H)).
  by rewrite (run_bind_Ok _ _ _ _ _ (run_write x t _ w H)).
Qed.

Lemma run_standardize (x : loc) (t : matrix) (mean std : R) (w : world) :
  heap w !! x = Some t -> std <> 0 ->
  standardize x mean std w
  = (Ok x, World (<[x := tmap (fun e => (e - mean) / std) t]> (heap w))
                 (rng w) (rng_pos w) (trace w)).
Proof.
  intros H Hs. unfold standardize.
  rewrite (run_bind_Ok _ _ _ _ _ (run_sub_ x t mean w H)).
  rewrite (run_div_ x (tmap (fun e => e - mean) t)); [|cbn|assumption].
  - cbn. by rewrite list_insert_insert_eq, tmap_tmap.
  - apply list_lookup_insert_eq. by eapply lookup_lt_Some.
Qed.

Lemma run_standardize_zero (x : loc) (t : matrix) (mean : R) (w : world) :
  heap w !! x = Some t ->
  standardize x mean 0 w
  = (Raise ZeroDivisionError,
     World (<[x := tmap (fun e => e - mean) t]> (heap w)) (rng w) (rng_pos w) (trace w)).
Proof.
  intros H. unfold standardize.
  rewrite (run_bind_Ok _ _ _ _ _ (run_sub_ x t mean w H)).
  unfold div_. by destruct (Req_dec_T 0 0) as [_|?].
Qed.

(** ** Mean and standard deviation *)

Lemma Rsum_cons (a : R) (l : list R) : Rsum (a :: l) = a + Rsum l.
Proof. reflexivity. Qed.

Lemma Rsum_shift_scale (m s : R) (l : list R) :
  Rsum (map (fun e => (e - m) / s) l) = (Rsum l - INR (length l) * m) / s.
Proof.
  induction l as [|a l IH].
  - cbn. unfold Rdiv. ring.
  - cbn [map length]. rewrite !Rsum_cons, IH, S_INR. unfold Rdiv. ring.
Qed.

Lemma Rsum_squares_scale (m s : R) (l : list R) :
  Rsum (map (fun e => ((e - m) / s - 0) ^ 2) l)
  = Rsum (map (fun e => (e - m) ^ 2) l) * (/ s) ^ 2.
Proof.
  induction l as [|a l IH].
  - cbn. ring.
  - cbn [map]. rewrite !Rsum_cons, IH. unfold Rdiv. ring.
Qed.

Lemma Rsum_squares_nonneg (m : R) (l : list R) :
  0 <= Rsum (map (fun e => (e - m) ^ 2) l).
Proof.
  induction l as [|a l IH]; [apply Rle_refl|].
  cbn [map]. rewrite Rsum_cons. pose proof (pow2_ge_0 (a - m)). lra.
Qed.

Lemma Rsum_squares_pos (m a : R) (l : list R) :
  a ∈ l -> a <> m -> 0 < Rsum (map (fun e => (e - m) ^ 2) l).
Proof.
  induction l as [|b l IH]; intros Hin Ha; [by apply elem_of_nil in Hin|].
  cbn [map]. rewrite Rsum_cons.
  pose proof (pow2_ge_0 (b - m)). pose proof (Rsum_squares_nonneg m l).
  apply elem_of_cons in Hin as [<-|Hin].
  - assert (0 < (a - m) ^ 2) by (rewrite <- Rsqr_pow2; apply Rsqr_pos_lt; lra). lra.
  - specialize (IH Hin Ha). lra.
Qed.

Lemma concat_tmap (f : R -> R) (x : matrix) : concat (tmap f x) = map f (concat x).
Proof. unfold tmap. symmetry. apply concat_map. Qed.

Lemma numel_tmap (f : R -> R) (x : matrix) : numel (tmap f x) = numel x.
Proof. unfold numel. by rewrite concat_tmap, length_map. Qed.

Lemma mean_Ok (x : matrix) (m : R) :
  mean x = Ok m <-> (numel x <> 0)%nat /\ m = Rsum (concat x) / INR (numel x).
Proof.
  unfold mean. destruct (Nat.eqb_spec (numel x) 0) as [H|H].
  - split; [discriminate|]. intros [? _]. contradiction.
  - split; [by intros [= <-]|]. by intros [_ ->].
Qed.

Lemma std_Ok (x : matrix) (s : R) :
  std x = Ok s <->
  (1 < numel x)%nat /\
  exists m, mean x = Ok m /\
    s = sqrt (Rsum (map (fun e => (e - m) ^ 2) (concat x)) / INR (numel x - 1)).
Proof.
  unfold std. destruct (mean x) as [m|e] eqn:Hm.
  - rewrite bind_Ok. destruct (Nat.eqb_spec (numel x - 1) 0) as [H|H].
    + split; [discriminate|]. intros [? _]. lia.
    + split.
      * intros [= <-]. split; [lia|]. by exists m.
      * intros [_ (m' & [= <-] & ->)]. reflexivity.
  - rewrite bind_Raise. split; [discriminate|]. by intros [_ (m' & ? & _)].
Qed.

(** The statistics of a tensor standardised with its own mean and standard
    deviation. *)
Lemma standardized_statistics (x : matrix) (m s : R) :
  mean x = Ok m -> std x = Ok s -> s <> 0 ->
  mean (tmap (fun e => (e - m) / s) x) = Ok 0 /\
  std (tmap (fun e => (e - m) / s) x) = Ok 1.
Proof.
  intros Hm Hs Hs0.
  apply std_Ok in Hs as (Hn & m' & Hm' & Hs). rewrite Hm in Hm'. injection Hm' as <-.
  apply mean_Ok in Hm as [Hn0 Hm].
  set (n := numel x) in *.
  assert (Hmean : mean (tmap (fun e => (e - m) / s) x) = Ok 0).
  { apply mean_Ok. rewrite numel_tmap. fold n. split; [assumption|].
    rewrite concat_tmap, Rsum_shift_scale.
    change (length (concat x)) with n. rewrite Hm.
    assert (INR n <> 0) by (apply not_0_INR; lia).
    field. split; assumption. }
  split; [assumption|].
  apply std_Ok. rewrite numel_tmap. fold n. split; [assumption|].
  exists 0. split; [assumption|].
  rewrite concat_tmap, map_map, Rsum_squares_scale.
  set (V := Rsum (map (fun e => (e - m) ^ 2) (concat x))) in *.
  assert (Hn1 : 0 < INR (n - 1)) by (apply lt_0_INR; lia).
  assert (HV : 0 <= V / INR (n - 1)).
  { apply Rle_mult_inv_pos; [apply Rsum_squares_nonneg|assumption]. }
  assert (Hss : s * s = V / INR (n - 1)) by (rewrite Hs; by apply sqrt_sqrt).
  replace (V * (/ s) ^ 2 / INR (n - 1)) with 1; [by rewrite sqrt_1|].
  replace (V * (/ s) ^ 2 / INR (n - 1)) with (V / INR (n - 1) * (/ s * / s))
    by (unfold Rdiv; ring).
  rewrite <- Hss. field. assumption.
Qed.

(** Two different elements make the standard deviation nonzero. *)
Lemma std_nonzero (x : matrix) (s a b : R) :
  std x = Ok s -> a ∈ concat x -> b ∈ concat x -> a <> b -> s <> 0.
Proof.
  intros Hs Ha Hb Hab.
  apply std_Ok in Hs as (Hn & m & Hm & ->).
  assert (Hpos : 0 < Rsum (map (fun e => (e - m) ^ 2) (concat x))).
  { destruct (Req_dec_T a m) as [->|Ham].
    - apply Rsum_squares_pos with (a := b); [assumption|congruence].
    - by apply Rsum_squares_pos with (a := a). }
  assert (Hn1 : 0 < INR (numel x - 1)) by (apply lt_0_INR; lia).
  apply Rgt_not_eq, sqrt_lt_R0. by apply Rdiv_lt_0_compat.
Qed.

(** ** Samples, labels and the classes of an indicator matrix *)

Lemma N_eq : N = 1000%nat.
Proof. reflexivity. Qed.

(** The samples are never enumerated in the proofs. *)
Opaque N.
Arguments sample : simpl never.

Lemma sample_length (g : nat -> R) (pos n m : nat) : length (sample g pos n m) = n.
Proof. unfold sample. by rewrite length_map, length_seq. Qed.

Lemma sample_lookup (g : nat -> R) (pos n m i : nat) :
  (i < n)%nat ->
  sample g pos n m !! i = Some (map (fun j => g (pos + i * m + j)%nat) (seq 0 m)).
Proof.
  intros Hi. unfold sample.
  change (map ?f (seq 0 n)) with (f <$> seq 0 n).
  rewrite list_lookup_fmap, lookup_seq_lt by assumption. reflexivity.
Qed.

Lemma sample_numel (g : nat -> R) (pos n m : nat) : numel (sample g pos n m) = (n * m)%nat.
Proof.
  unfold numel, sample. generalize 0%nat at 2 as s.
  induction n as [|n IH]; intros s; [reflexivity|].
  cbn [seq map concat]. rewrite length_app, IH, length_map, length_seq. lia.
Qed.

Lemma sample_column_Ok (g : nat -> R) (pos n m j : nat) :
  (j < m)%nat -> column j (sample g pos n m) = Ok (sample_column g pos n m j).
Proof.
  intros Hj. unfold column, sample, sample_column.
  rewrite mapR_map. apply mapR_Ok. intros i _.
  change (map ?f (seq 0 m)) with (f <$> seq 0 m).
  rewrite list_lookup_fmap, lookup_seq_lt by assumption. reflexivity.
Qed.

Lemma disk_labels_rows (x : matrix) : disk_labels x = map label_of x.
Proof.
  unfold disk_labels, lt_long, sum_axis1, tmap, sub_rows.
  rewrite !map_map. reflexivity.
Qed.

Lemma disk_labels_binary (x : matrix) (k : Z) :
  k ∈ disk_labels x -> k = 0%Z \/ k = 1%Z.
Proof.
  rewrite disk_labels_rows. change (map label_of x) with (label_of <$> x).
  intros (row & -> & _)%list_elem_of_fmap. unfold label_of.
  destruct (Rlt_dec _ _); auto.
Qed.

Lemma argmax_from_keep (best : R) (bi i : nat) (l : list R) :
  (forall e, e ∈ l -> e <= best) -> argmax_from best bi i l = bi.
Proof.
  revert i. induction l as [|x l IH]; intros i Hl; [reflexivity|].
  cbn [argmax_from]. destruct (Rlt_dec best x) as [Hlt|_].
  - specialize (Hl x (list_elem_of_here _ _)). lra.
  - apply IH. intros e He. apply Hl. by right.
Qed.

Lemma argmax_one_hot_row (C : nat) (k : Z) (row : list R) :
  k = 0%Z \/ k = 1%Z -> one_hot_row C k = Ok row -> argmax_row row = Ok k.
Proof.
  intros Hk. unfold one_hot_row.
  destruct (wrap_index C k) as [j|] eqn:Hw; [|discriminate].
  intros [= <-]. pose proof (wrap_index_lt _ _ _ Hw) as Hj.
  assert (Hzero : forall n e, e ∈ replicate n 0 -> e <= 1).
  { intros n e [-> _]%elem_of_replicate. lra. }
  destruct Hk as [-> | ->].
  - destruct C as [|C]; [lia|]. injection Hw as <-.
    change (<[Z.to_nat 0 := 1]> (replicate (S C) 0)) with (1 :: replicate C 0).
    unfold argmax_row. rewrite argmax_from_keep by apply Hzero. reflexivity.
  - assert (j = 1%nat) as ->.
    { unfold wrap_index in Hw.
      destruct ((0 <=? 1)%Z && (1 <? Z.of_nat C)%Z); [by injection Hw|].
      destruct ((- Z.of_nat C <=? 1)%Z && (1 <? 0)%Z) eqn:H; [|discriminate].
      apply andb_true_iff in H as [_ H]. discriminate. }
    destruct C as [|[|C]]; [lia|lia|].
    change (<[1%nat := 1]> (replicate (S (S C)) 0)) with (0 :: 1 :: replicate C 0).
    unfold argmax_row. cbn [argmax_from].
    destruct (Rlt_dec 0 1) as [_|H]; [|exfalso; lra].
    rewrite argmax_from_keep by apply Hzero. reflexivity.
Qed.

Lemma to_one_hot_argmax (y : list Z) (Y : matrix) :
  (forall k, k ∈ y -> k = 0%Z \/ k = 1%Z) -> to_one_hot y = Ok Y -> argmax1 Y = Ok y.
Proof.
  rewrite to_one_hot_rows. generalize (length (unique y)) as C. intros C.
  revert Y. induction y as [|k y IH]; intros Y Hy H.
  - injection H as <-. reflexivity.
  - rewrite mapR_cons in H.
    destruct (one_hot_row C k) as [row|] eqn:Hrow; [|discriminate].
    rewrite bind_Ok in H. destruct (mapR (one_hot_row C) y) as [rows|]; [|discriminate].
    injection H as <-. unfold argmax1. rewrite mapR_cons.
    rewrite (argmax_one_hot_row C k row); [|apply Hy; by left|assumption].
    rewrite bind_Ok. fold (argmax1 rows). rewrite (IH rows); [reflexivity| |reflexivity].
    intros k' Hk'. apply Hy. by right.
Qed.

(** ** plot_dataset and load_data as one step *)

(** One step of a command that starts with a pure computation whose result
    is known, or with an event. *)
Ltac run_lift := rewrite run_bind; unfold lift at 1; cbv beta iota.
Ltac run_emit :=
  rewrite run_bind; unfold emit at 1; cbv beta iota; cbn [heap rng rng_pos trace].

Lemma run_plot_dataset (data : loc) (x labels : matrix) (xs ys : list R) (cls : list Z)
    (name : string) (w : world) :
  heap w !! data = Some x -> column 0 x = Ok xs -> column 1 x = Ok ys ->
  argmax1 labels = Ok cls ->
  plot_dataset data labels name w
  = (Ok tt, World (heap w) (rng w) (rng_pos w) (trace w ++ plot_events xs ys cls name)).
Proof.
  intros Hx Hxs Hys Hcls. unfold plot_dataset.
  rewrite (run_bind_Ok _ _ _ _ _ (run_read data x w Hx)).
  rewrite Hxs, Hys, Hcls. unfold plot_events.
  do 3 run_lift. do 2 run_emit. unfold emit. cbn [heap rng rng_pos trace].
  by rewrite <- !app_assoc.
Qed.

Lemma load_data_summary (plotting : bool) (w : world) :
  load_data plotting w = load_data_outcome plotting w.
Proof.
  unfold load_data, load_data_outcome.
  set (xtr := train_raw w). set (xte := test_raw w).
  set (w2 := World (heap w ++ [xtr; xte]) (rng w) (rng_pos w + N * 2 + N * 2) (trace w)).
  assert (H1 : FloatTensor_uniform N 2 w
               = (Ok (length (heap w)),
                  World (heap w ++ [xtr]) (rng w) (rng_pos w + N * 2) (trace w)))
    by reflexivity.
  rewrite (run_bind_Ok _ _ _ _ _ H1). clear H1.
  assert (H2 : FloatTensor_uniform N 2
                 (World (heap w ++ [xtr]) (rng w) (rng_pos w + N * 2) (trace w))
               = (Ok (S (length (heap w))), w2)).
  { unfold FloatTensor_uniform, alloc, w2. cbn [heap rng rng_pos trace].
    rewrite length_app, <- app_assoc. cbn [length app].
    by rewrite Nat.add_1_r. }
  rewrite (run_bind_Ok _ _ _ _ _ H2). clear H2.
  assert (Htr : heap w2 !! length (heap w) = Some xtr).
  { unfold w2. cbn [heap]. by rewrite lookup_app_r, Nat.sub_diag by lia. }
  assert (Hte : heap w2 !! S (length (heap w)) = Some xte).
  { unfold w2. cbn [heap]. rewrite lookup_app_r by lia.
    by replace (S (length (heap w)) - length (heap w))%nat with 1%nat by lia. }
  rewrite (run_bind_Ok _ _ _ _ _ (run_read _ _ _ Htr)).
  rewrite run_bind. unfold lift at 1.
  destruct (to_one_hot (disk_labels xtr)) as [trainY|e] eqn:HtrY; [|reflexivity].
  rewrite (run_bind_Ok _ _ _ _ _ (run_read _ _ _ Hte)).
  rewrite run_bind. unfold lift at 1.
  destruct (to_one_hot (disk_labels xte)) as [testY|e] eqn:HteY; [|reflexivity].
  rewrite run_bind. unfold lift at 1.
  destruct (mean xtr) as [m|e] eqn:Hm; [|reflexivity].
  rewrite run_bind. unfold lift at 1.
  destruct (std xtr) as [s|e] eqn:Hs; [|reflexivity].
  rewrite !bind_Ok.
  set (tr := trace w ++ (if plotting then load_data_plots w else [])).
  set (w3 := World (heap w2) (rng w2) (rng_pos w2) tr).
  assert (Hplot : (if plotting
                   then plot_dataset (length (heap w)) trainY "train";;
                        plot_dataset (S (length (heap w))) testY "test"
                   else mret tt) w2 = (Ok tt, w3)).
  { unfold w3, tr. destruct plotting.
    - rewrite (run_bind_Ok _ _ _ _ _
                 (run_plot_dataset _ xtr trainY _ _ _ "train" w2 Htr
                    (sample_column_Ok _ _ _ 2 0 ltac:(lia))
                    (sample_column_Ok _ _ _ 2 1 ltac:(lia))
                    (to_one_hot_argmax _ _ (disk_labels_binary xtr) HtrY))).
      etrans.
      { eapply (run_plot_dataset _ xte testY _ _ (disk_labels xte) "test").
        - exact Hte.
        - apply (sample_column_Ok _ _ _ 2 0). lia.
        - apply (sample_column_Ok _ _ _ 2 1). lia.
        - exact (to_one_hot_argmax _ _ (disk_labels_binary xte) HteY). }
      cbn [heap rng rng_pos trace]. unfold load_data_plots.
      by rewrite <- app_assoc.
    - cbn. by rewrite app_nil_r. }
  rewrite (run_bind_Ok _ _ _ _ _ Hplot). clear Hplot.
  assert (Htr3 : heap w3 !! length (heap w) = Some xtr) by exact Htr.
  destruct (Req_dec_T s 0) as [->|Hs0].
  - rewrite (run_bind_Raise _ _ _ _ _ (run_standardize_zero _ _ m w3 Htr3)).
    f_equal. unfold w3, w2. cbn [heap rng rng_pos trace]. f_equal.
    by rewrite insert_app_r_alt, Nat.sub_diag by lia.
  - rewrite (run_bind_Ok _ _ _ _ _ (run_standardize _ _ m s w3 Htr3 Hs0)).
    set (w4 := World _ _ _ _).
    assert (Hte4 : heap w4 !! S (length (heap w)) = Some xte).
    { unfold w4. cbn [heap]. rewrite list_lookup_insert_ne by lia. exact Hte. }
    rewrite (run_bind_Ok _ _ _ _ _ (run_standardize _ _ m s w4 Hte4 Hs0)).
    cbn [mret M_ret]. f_equal. unfold w4, w3, w2. cbn [heap rng rng_pos trace]. f_equal.
    rewrite insert_app_r_alt, Nat.sub_diag by lia. cbn [insert list_insert].
    rewrite insert_app_r_alt by lia.
    by replace (S (length (heap w)) - length (heap w))%nat with 1%nat by lia.
Qed.

Lemma load_data_Ok_inv (plotting : bool) (w w' : world) (r : loc * matrix * loc * matrix) :
  load_data plotting w = (Ok r, w') ->
  exists trainY testY m s,
    to_one_hot (disk_labels (train_raw w)) = Ok trainY /\
    to_one_hot (disk_labels (test_raw w)) = Ok testY /\
    mean (train_raw w) = Ok m /\ std (train_raw w) = Ok s /\ s <> 0 /\
    r = (length (heap w), trainY, S (length (heap w)), testY) /\
    w' = World (heap w ++ [tmap (fun e => (e - m) / s) (train_raw w);
                           tmap (fun e => (e - m) / s) (test_raw w)])
               (rng w) (rng_pos w + N * 2 + N * 2)
               (trace w ++ (if plotting then load_data_plots w else [])).
Proof.
  rewrite load_data_summary. unfold load_data_outcome.
  destruct (to_one_hot (disk_labels (train_raw w))) as [trainY|]; [|discriminate].
  destruct (to_one_hot (disk_labels (test_raw w))) as [testY|]; [|discriminate].
  destruct (mean (train_raw w)) as [m|]; [|discriminate].
  destruct (std (train_raw w)) as [s|]; [|discriminate].
  rewrite !bind_Ok. destruct (Req_dec_T s 0) as [|Hs]; [discriminate|].
  intros [= <- <-]. by exists trainY, testY, m, s.
Qed.

Lemma load_data_run (plotting : bool) (w : world) (trainY testY : matrix) (m s : R) :
  to_one_hot (disk_labels (train_raw w)) = Ok trainY ->
  to_one_hot (disk_labels (test_raw w)) = Ok testY ->
  mean (train_raw w) = Ok m -> std (train_raw w) = Ok s -> s <> 0 ->
  load_data plotting w
  = (Ok (length (heap w), trainY, S (length (heap w)), testY),
     World (heap w ++ [tmap (fun e => (e - m) / s) (train_raw w);
                       tmap (fun e => (e - m) / s) (test_raw w)])
           (rng w) (rng_pos w + N * 2 + N * 2)
           (trace w ++ (if plotting then load_data_plots w else []))).
Proof.
  intros HtrY HteY Hm Hs Hs0.
  rewrite load_data_summary. unfold load_data_outcome.
  rewrite HtrY, HteY, Hm, Hs, !bind_Ok.
  by destruct (Req_dec_T s 0).
Qed.

(** The statistics of a sample are defined as soon as it has two elements. *)
Lemma sample_statistics (g : nat -> R) (pos n m : nat) :
  (1 < n * m)%nat ->
  exists mu sigma, mean (sample g pos n m) = Ok mu /\ std (sample g pos n m) = Ok sigma.
Proof.
  intros Hn. unfold std, mean. rewrite sample_numel.
  destruct (Nat.eqb_spec (n * m) 0) as [?|_]; [lia|]. rewrite bind_Ok.
  destruct (Nat.eqb_spec (n * m - 1) 0) as [?|_]; [lia|]. eauto.
Qed.

Lemma elem_of_concat_lookup (x : matrix) (i j : nat) (row : list R) (e : R) :
  x !! i = Some row -> row !! j = Some e -> e ∈ concat x.
Proof.
  intros Hi Hj. apply list_elem_of_In, in_concat. exists row.
  split; apply list_elem_of_In; by eapply list_elem_of_lookup_2.
Qed.

(** ** A run of load_data *)

Lemma PI_gt_2 : 2 < PI.
Proof. pose proof PI2_1. lra. Qed.

Lemma r2_bounds : 0 < r2 < 1/4.
Proof.
  unfold r2. pose proof PI_gt_2 as Hpi. split.
  - apply Rdiv_lt_0_compat; lra.
  - apply Rmult_lt_reg_r with (2 * PI); [lra|].
    unfold Rdiv. rewrite Rmult_assoc, Rinv_l by lra. lra.
Qed.

Lemma label_of_inside (px py : R) :
  (px - 1/2) ^ 2 + (py - 1/2) ^ 2 < r2 -> label_of [px; py] = 1%Z.
Proof.
  intros H. unfold label_of, center. cbn [zip_with map]. rewrite !Rsum_cons.
  change (Rsum []) with 0. destruct (Rlt_dec _ _) as [_|Hn]; [reflexivity|].
  exfalso. apply Hn. lra.
Qed.

Lemma label_of_outside (px py : R) :
  ~ (px - 1/2) ^ 2 + (py - 1/2) ^ 2 < r2 -> label_of [px; py] = 0%Z.
Proof.
  intros H. unfold label_of, center. cbn [zip_with map]. rewrite !Rsum_cons.
  change (Rsum []) with 0. destruct (Rlt_dec _ _) as [Hlt|_]; [|reflexivity].
  exfalso. apply H. lra.
Qed.

Lemma disk_labels_lookup (x : matrix) (i : nat) (row : list R) :
  x !! i = Some row -> disk_labels x !! i = Some (label_of row).
Proof.
  intros H. rewrite disk_labels_rows. change (map label_of x) with (label_of <$> x).
  by rewrite list_lookup_fmap, H.
Qed.

Lemma both_labels_values (x : matrix) :
  both_labels x -> forall k, k ∈ disk_labels x <-> k = 0%Z \/ k = 1%Z.
Proof.
  intros [H0 H1] k. split; [apply disk_labels_binary|]. by intros [-> | ->].
Qed.

Lemma to_one_hot_both_labels (x : matrix) :
  both_labels x -> to_one_hot (disk_labels x) = Ok (map hot2 (disk_labels x)).
Proof. intros H. by apply to_one_hot_binary, both_labels_values. Qed.

Lemma demo_train_0 : train_raw demo !! 0%nat = Some [1/2; 1/2].
Proof. unfold train_raw. rewrite sample_lookup by (rewrite N_eq; lia). reflexivity. Qed.

Lemma demo_train_1 : train_raw demo !! 1%nat = Some [0; 0].
Proof. unfold train_raw. rewrite sample_lookup by (rewrite N_eq; lia). reflexivity. Qed.

Lemma demo_test_0 : test_raw demo !! 0%nat = Some [1/2; 1/2].
Proof. unfold test_raw. rewrite sample_lookup by (rewrite N_eq; lia). reflexivity. Qed.

Lemma demo_test_1 : test_raw demo !! 1%nat = Some [0; 1/4].
Proof. unfold test_raw. rewrite sample_lookup by (rewrite N_eq; lia). reflexivity. Qed.

Lemma demo_train_labels : both_labels (train_raw demo).
Proof.
  pose proof r2_bounds. split.
  - apply list_elem_of_lookup. exists 1%nat.
    rewrite (disk_labels_lookup _ _ _ demo_train_1). f_equal.
    apply label_of_outside. lra.
  - apply list_elem_of_lookup. exists 0%nat.
    rewrite (disk_labels_lookup _ _ _ demo_train_0). f_equal.
    apply label_of_inside. lra.
Qed.

Lemma demo_test_labels : both_labels (test_raw demo).
Proof.
  pose proof r2_bounds. split.
  - apply list_elem_of_lookup. exists 1%nat.
    rewrite (disk_labels_lookup _ _ _ demo_test_1). f_equal.
    apply label_of_outside. lra.
  - apply list_elem_of_lookup. exists 0%nat.
    rewrite (disk_labels_lookup _ _ _ demo_test_0). f_equal.
    apply label_of_inside. lra.
Qed.

(** On [demo], [load_data] returns. *)
Lemma demo_run (plotting : bool) :
  exists m s,
    mean (train_raw demo) = Ok m /\ std (train_raw demo) = Ok s /\ s <> 0 /\
    load_data plotting demo
    = (Ok (0%nat, map hot2 (disk_labels (train_raw demo)),
           1%nat, map hot2 (disk_labels (test_raw demo))),
       World [tmap (fun e => (e - m) / s) (train_raw demo);
              tmap (fun e => (e - m) / s) (test_raw demo)]
             demo_rng (N * 2 + N * 2)
             (if plotting then load_data_plots demo else [])).
Proof.
  destruct (sample_statistics demo_rng 0 N 2) as (m & s & Hm & Hs); [rewrite N_eq; lia|].
  assert (Hs0 : s <> 0).
  { apply (std_nonzero _ s (1/2) 0 Hs); [| |lra].
    - by apply (elem_of_concat_lookup _ 0 0 _ _ demo_train_0).
    - by apply (elem_of_concat_lookup _ 1 0 _ _ demo_train_1). }
  exists m, s. split; [exact Hm|]. split; [exact Hs|]. split; [exact Hs0|].
  exact (load_data_run plotting demo _ _ m s
           (to_one_hot_both_labels _ demo_train_labels)
           (to_one_hot_both_labels _ demo_test_labels) Hm Hs Hs0).
Qed.

(** ** Samples as flat lists *)

Lemma map_seq_shift {A : Type} (f : nat -> A) (s k : nat) :
  map f (seq s k) = map (fun j => f (s + j)%nat) (seq 0 k).
Proof.
  revert f s. induction k as [|k IH]; intros f s; [reflexivity|].
  cbn [seq map]. rewrite Nat.add_0_r. f_equal.
  rewrite (IH f (S s)), (IH (fun j => f (s + j)%nat) 1%nat).
  apply map_ext. intros j. f_equal. lia.
Qed.

Lemma concat_sample (g : nat -> R) (pos n m : nat) :
  concat (sample g pos n m) = map (fun k => g (pos + k)%nat) (seq 0 (n * m)).
Proof.
  unfold sample. induction n as [|n IH]; [reflexivity|].
  rewrite seq_S, map_app, concat_app, IH. cbn [map concat Nat.add].
  rewrite app_nil_r.
  replace (S n * m)%nat with (n * m + m)%nat by lia.
  rewrite seq_app, map_app. f_equal. cbn [Nat.add].
  rewrite (map_seq_shift _ (n * m)). apply map_ext. intros j. f_equal. lia.
Qed.

Lemma Rsum_map_le (f f' : nat -> R) (l : list nat) :
  (forall k, k ∈ l -> f k <= f' k) -> Rsum (map f l) <= Rsum (map f' l).
Proof.
  induction l as [|a l IH]; intros H; [apply Rle_refl|].
  cbn [map]. rewrite !Rsum_cons.
  pose proof (H a (list_elem_of_here _ _)).
  assert (Rsum (map f l) <= Rsum (map f' l)) by (apply IH; intros k Hk; apply H; by right).
  lra.
Qed.

Lemma Rsum_map_lt (f f' : nat -> R) (l : list nat) (a : nat) :
  (forall k, k ∈ l -> f k <= f' k) -> a ∈ l -> f a < f' a ->
  Rsum (map f l) < Rsum (map f' l).
Proof.
  induction l as [|b l IH]; intros H Ha Hlt; [by apply elem_of_nil in Ha|].
  cbn [map]. rewrite !Rsum_cons.
  pose proof (H b (list_elem_of_here _ _)).
  assert (Hl : forall k, k ∈ l -> f k <= f' k) by (intros k Hk; apply H; by right).
  pose proof (Rsum_map_le f f' l Hl).
  apply elem_of_cons in Ha as [->|Ha]; [lra|].
  specialize (IH Hl Ha Hlt). lra.
Qed.

(** ** Statistics in load_data *)











(** ** Standardising with the tensor's own statistics *)

Lemma demo_rng_shift (k : nat) : demo_rng k <= demo_rng (2000 + k).
Proof.
  unfold demo_rng.
  assert (E : ((2000 + k) mod 4 = k mod 4)%nat).
  { replace (2000 + k)%nat with (k + 500 * 4)%nat by lia. apply Nat.Div0.mod_add. }
  rewrite E.
  destruct (k mod 4)%nat as [|[|[|?]]]; try lra.
  replace (2000 + k <? 2000)%nat with false by (symmetry; apply Nat.ltb_ge; lia).
  destruct (k <? 2000)%nat; lra.
Qed.

Lemma demo_sums : Rsum (concat (train_raw demo)) < Rsum (concat (test_raw demo)).
Proof.
  unfold train_raw, test_raw. rewrite !concat_sample. cbn [rng rng_pos demo].
  rewrite N_eq. change (0 + 1000 * 2)%nat with 2000%nat.
  apply Rsum_map_lt with (a := 3%nat).
  - intros k _. apply demo_rng_shift.
  - apply elem_of_seq. lia.
  - unfold demo_rng. cbn. lra.
Qed.

(** C6. Standardising a tensor with its own mean and standard deviation,
    the latter nonzero, leaves a tensor of mean exactly 0 and standard
    deviation exactly 1; so has the training set that [load_data] returns.
    The test set is standardised with the training statistics, and there
    are runs in which its mean is not 0. *)
Theorem standardize_own_statistics :
  (forall (x : loc) (t : matrix) (m s : R) (w : world),
     heap w !! x = Some t -> mean t = Ok m -> std t = Ok s -> s <> 0 ->
     exists w' t', standardize x m s w = (Ok x, w') /\ heap w' !! x = Some t' /\
                   mean t' = Ok 0 /\ std t' = Ok 1) /\
  (forall (plotting : bool) (w w' : world) (a b : loc) (trainY testY : matrix),
     load_data plotting w = (Ok (a, trainY, b, testY), w') ->
     exists t', heap w' !! a = Some t' /\ mean t' = Ok 0 /\ std t' = Ok 1) /\
  (exists (w w' : world) (a b : loc) (trainY testY t' : matrix),
     load_data false w = (Ok (a, trainY, b, testY), w') /\
     heap w' !! b = Some t' /\ mean t' <> Ok 0).
Proof.
  split; [|split].
  - intros x t m s w Hx Hm Hs Hs0.
    exists (World (<[x := tmap (fun e => (e - m) / s) t]> (heap w))
                  (rng w) (rng_pos w) (trace w)), (tmap (fun e => (e - m) / s) t).
    split; [by apply run_standardize|]. cbn [heap].
    split; [apply list_lookup_insert_eq; by eapply lookup_lt_Some|].
    by apply standardized_statistics.
  - intros plotting w w' a b trainY testY
      (trainY' & testY' & m & s & _ & _ & Hm & Hs & Hs0 & [= -> _ _ _] & ->)
      %load_data_Ok_inv.
    exists (tmap (fun e => (e - m) / s) (train_raw w)). cbn [heap].
    split; [by rewrite lookup_app_r, Nat.sub_diag by lia|].
    by apply standardized_statistics.
  - destruct (demo_run false) as (m & s & Hm & Hs & Hs0 & Hrun).
    eexists demo, _, _, _, _, _, _. split; [exact Hrun|]. cbn [heap].
    split; [reflexivity|].
    intros H. apply mean_Ok in H as [Hn H]. rewrite numel_tmap in Hn, H.
    rewrite concat_tmap, Rsum_shift_scale in H.
    change (length (concat (test_raw demo))) with (numel (test_raw demo)) in H.
    apply mean_Ok in Hm as [Hn' Hm].
    assert (Hnum : numel (test_raw demo) = numel (train_raw demo)).
    { unfold test_raw, train_raw. by rewrite !sample_numel. }
    rewrite Hnum in *.
    assert (HN : INR (numel (train_raw demo)) <> 0) by (apply not_0_INR; lia).
    pose proof demo_sums as Hlt.
    assert (Hsum : Rsum (concat (train_raw demo)) = INR (numel (train_raw demo)) * m).
    { rewrite Hm. field. exact HN. }
    assert (Hz : Rsum (concat (test_raw demo)) - INR (numel (train_raw demo)) * m = 0).
    { apply (Rmult_eq_reg_r (/ s)); [|by apply Rinv_neq_0_compat].
      apply (Rmult_eq_reg_r (/ INR (numel (train_raw demo))));
        [|by apply Rinv_neq_0_compat].
      unfold Rdiv in H. rewrite <- H. ring. }
    lra.
Qed.

Lemma standardize_own_statistics_witness :
  (exists w' t', standardize 0%nat 2 (sqrt 2) (World [[[1; 3]]] (fun _ => 0) 0 [])
                 = (Ok 0%nat, w') /\
                 heap w' !! 0%nat = Some t' /\ mean t' = Ok 0 /\ std t' = Ok 1) /\
  (exists t', heap (load_data false demo).2 !! 0%nat = Some t' /\
              mean t' = Ok 0 /\ std t' = Ok 1).
Proof.
  destruct standardize_own_statistics as (Hstd & Hload & _). split.
  - apply (Hstd 0%nat [[1; 3]] 2 (sqrt 2)).
    + reflexivity.
    + apply mean_Ok. split; [cbn; lia|]. cbn. lra.
    + apply std_Ok. split; [cbn; lia|]. exists 2.
      split; [apply mean_Ok; split; [cbn; lia|cbn; lra]|].
      f_equal. cbn. lra.
    + pose proof Rlt_sqrt2_0. lra.
  - destruct (demo_run false) as (m & s & _ & _ & _ & Hrun).
    rewrite Hrun. exact (Hload false demo _ _ _ _ _ Hrun).
Defined.

(** ** Plotting in load_data *)

Lemma column_tmap (f : R -> R) (j : nat) (x : matrix) (c : list R) :
  column j x = Ok c -> column j (tmap f x) = Ok (map f c).
Proof.
  unfold column, tmap. revert c. induction x as [|row x IH]; intros c H.
  - injection H as <-. reflexivity.
  - cbn [map]. rewrite mapR_cons in H |- *.
    change (map f row) with (f <$> row). rewrite list_lookup_fmap.
    destruct (row !! j) as [e|]; [|discriminate]. cbn [fmap option_fmap option_map].
    rewrite bind_Ok in H |- *.
    destruct (mapR _ x) as [c'|] eqn:Hc; [|discriminate].
    injection H as <-. by rewrite (IH c').
Qed.

Lemma demo_rng_nonneg (k : nat) : 0 <= demo_rng k.
Proof.
  unfold demo_rng. destruct (k mod 4)%nat as [|[|[|?]]]; try lra.
  destruct (k <? 2000)%nat; lra.
Qed.

Lemma Rsum_map_zero (l : list nat) : Rsum (map (fun _ => 0) l) = 0.
Proof.
  induction l as [|a l IH]; [reflexivity|]. cbn [map]. rewrite Rsum_cons, IH. lra.
Qed.

Lemma demo_mean_pos (m : R) : mean (train_raw demo) = Ok m -> 0 < m.
Proof.
  intros [Hn ->]%mean_Ok.
  apply Rdiv_lt_0_compat; [|apply lt_0_INR; lia].
  unfold train_raw. rewrite concat_sample. cbn [rng rng_pos demo].
  rewrite <- (Rsum_map_zero (seq 0 (N * 2))).
  apply Rsum_map_lt with (a := 0%nat).
  - intros k _. apply demo_rng_nonneg.
  - apply elem_of_seq. rewrite N_eq. lia.
  - unfold demo_rng. cbn. lra.
Qed.

(** C8 fails as stated: on [demo], with plotting, the first scatter plot
    holds the x coordinates as drawn, and they are not those of the
    standardised training set that [load_data] returns. *)
Lemma load_data_plots_not_standardized :
  exists a trainY b testY w' xs ys c rest t xs',
    load_data true demo = (Ok (a, trainY, b, testY), w') /\
    trace w' = Scatter xs ys c None None :: rest /\
    heap w' !! a = Some t /\ column 0 t = Ok xs' /\ xs <> xs'.
Proof.
  destruct (demo_run true) as (m & s & Hm & Hs & Hs0 & Hrun).
  eexists _, _, _, _, _, _, _, _, _, _, _. split; [exact Hrun|]. cbn [heap trace].
  split; [reflexivity|]. split; [reflexivity|].
  split.
  { apply column_tmap. unfold train_raw. apply (sample_column_Ok _ _ _ 2 0). lia. }
  intros Heq. apply (f_equal (fun l => l !! 1%nat)) in Heq.
  cbn [rng rng_pos demo] in Heq.
  change (map ?f ?l) with (f <$> l) in Heq. rewrite list_lookup_fmap in Heq.
  unfold sample_column in Heq.
  change (map ?f ?l) with (f <$> l) in Heq.
  rewrite list_lookup_fmap, lookup_seq_lt in Heq by (rewrite N_eq; lia).
  cbn [fmap option_fmap option_map] in Heq. injection Heq as Heq.
  change (demo_rng 2) with 0 in Heq.
  pose proof (demo_mean_pos m Hm) as Hpos.
  assert (Hz : (0 - m) / s * s = 0 * s) by (rewrite <- Heq; ring).
  unfold Rdiv in Hz. rewrite Rmult_assoc, Rinv_l in Hz by assumption. lra.
Qed.

(** C8, as amended.  In [load_data] the mean and the standard deviation of
    the training coordinates are applied to both sets, and plotting, when it
    is asked for, comes before that: the points passed to [plot_dataset] are
    the coordinates as drawn, the tensors returned are the standardised
    ones. *)
Theorem load_data_plots_before_standardize (w w' : world) (a b : loc)
    (trainY testY : matrix) :
  load_data true w = (Ok (a, trainY, b, testY), w') ->
  exists m s xs ys xs' ys' c c' p p',
    mean (train_raw w) = Ok m /\ std (train_raw w) = Ok s /\
    column 0 (train_raw w) = Ok xs /\ column 1 (train_raw w) = Ok ys /\
    column 0 (test_raw w) = Ok xs' /\ column 1 (test_raw w) = Ok ys' /\
    trace w' = trace w ++ [Scatter xs ys (PerPoint c) None None; Print p;
                           Savefig "fig/train.png";
                           Scatter xs' ys' (PerPoint c') None None; Print p';
                           Savefig "fig/test.png"] /\
    heap w' !! a = Some (tmap (fun e => (e - m) / s) (train_raw w)) /\
    heap w' !! b = Some (tmap (fun e => (e - m) / s) (test_raw w)).
Proof.
  intros (trainY' & testY' & m & s & _ & _ & Hm & Hs & _ & [= -> _ -> _] & ->)
    %load_data_Ok_inv.
  exists m, s. eexists _, _, _, _, _, _, _, _.
  split; [exact Hm|]. split; [exact Hs|].
  split; [apply (sample_column_Ok _ _ _ 2 0); lia|].
  split; [apply (sample_column_Ok _ _ _ 2 1); lia|].
  split; [apply (sample_column_Ok _ _ _ 2 0); lia|].
  split; [apply (sample_column_Ok _ _ _ 2 1); lia|].
  cbn [heap trace]. split; [reflexivity|]. split.
  - by rewrite lookup_app_r, Nat.sub_diag by lia.
  - rewrite lookup_app_r by lia.
    by replace (S (length (heap w)) - length (heap w))%nat with 1%nat by lia.
Qed.

Lemma load_data_plots_before_standardize_witness :
  exists m s xs ys xs' ys' c c' p p',
    mean (train_raw demo) = Ok m /\ std (train_raw demo) = Ok s /\
    column 0 (train_raw demo) = Ok xs /\ column 1 (train_raw demo) = Ok ys /\
    column 0 (test_raw demo) = Ok xs' /\ column 1 (test_raw demo) = Ok ys' /\
    trace (load_data true demo).2
    = [] ++ [Scatter xs ys (PerPoint c) None None; Print p; Savefig "fig/train.png";
             Scatter xs' ys' (PerPoint c') None None; Print p'; Savefig "fig/test.png"] /\
    heap (load_data true demo).2 !! 0%nat
    = Some (tmap (fun e => (e - m) / s) (train_raw demo)) /\
    heap (load_data true demo).2 !! 1%nat
    = Some (tmap (fun e => (e - m) / s) (test_raw demo)).
Proof.
  destruct (demo_run true) as (m & s & _ & _ & _ & Hrun).
  rewrite Hrun.
  exact (load_data_plots_before_standardize demo _ _ _ _ _ Hrun).
Defined.

(** ** The files a command writes *)

Lemma saved_files_app (t1 t2 : list event) :
  saved_files (t1 ++ t2) = saved_files t1 ++ saved_files t2.
Proof. apply omap_app. Qed.

Lemma files_silent {A : Type} (m : M A) :
  (forall w, trace (m w).2 = trace w) -> files_within m [].
Proof.
  intros H w. exists []. rewrite H, app_nil_r. by repeat split.
Qed.

Lemma files_bind {A B : Type} (m : M A) (k : A -> M B) (L1 L2 : list string) :
  files_within m L1 -> (forall a, files_within (k a) L2) ->
  files_within (m ≫= k) (L1 ++ L2).
Proof.
  intros Hm Hk w. destruct (Hm w) as (l1 & Hs1 & Hp1 & Hok1).
  rewrite run_bind. destruct (m w) as [[a|e] w1]; cbn [fst snd] in *.
  - destruct (Hk a w1) as (l2 & Hs2 & Hp2 & Hok2).
    rewrite (Hok1 a eq_refl) in Hs1. exists (L1 ++ l2).
    rewrite Hs2, Hs1, <- app_assoc. split; [reflexivity|].
    split; [by apply prefix_app|]. intros b Hb. f_equal. by eapply Hok2.
  - exists l1. split; [assumption|].
    split; [by apply prefix_app_r|]. discriminate.
Qed.

Lemma files_emit (ev : event) : files_within (emit ev) (saved_files [ev]).
Proof.
  intros w. exists (saved_files [ev]). cbn [emit fst snd trace].
  by rewrite saved_files_app.
Qed.

Lemma files_eq {A : Type} (m : M A) (L L' : list string) :
  files_within m L -> L = L' -> files_within m L'.
Proof. by intros H <-. Qed.

Lemma files_emit_other (ev : event) :
  saved_files [ev] = [] -> files_within (emit ev) [].
Proof. intros H. eapply files_eq; [apply files_emit|exact H]. Qed.

Lemma files_emit_savefig (fname : string) : files_within (emit (Savefig fname)) [fname].
Proof. apply files_emit. Qed.

Lemma files_lift {A : Type} (r : result A) : files_within (lift r) [].
Proof. by apply files_silent. Qed.

Lemma files_mret {A : Type} (a : A) : files_within (mret a) [].
Proof. by apply files_silent. Qed.

Lemma files_read (x : loc) : files_within (read x) [].
Proof. apply files_silent. intros w. unfold read. by destruct (heap w !! x). Qed.

Lemma files_write (x : loc) (t : matrix) : files_within (write x t) [].
Proof. apply files_silent. intros w. unfold write. by destruct (heap w !! x). Qed.

Lemma files_uniform (n m : nat) : files_within (FloatTensor_uniform n m) [].
Proof. by apply files_silent. Qed.

(** One rule per construct of the commands. *)
Ltac files_step :=
  lazymatch goal with
  | |- files_within (mbind _ _) _ => apply files_bind; [|intros ?]
  | |- files_within (emit (Savefig _)) _ => apply files_emit_savefig
  | |- files_within (emit _) _ => apply files_emit_other; reflexivity
  | |- files_within (lift _) _ => apply files_lift
  | |- files_within (mret _) _ => apply files_mret
  | |- files_within (read _) _ => apply files_read
  | |- files_within (write _ _) _ => apply files_write
  | |- files_within (FloatTensor_uniform _ _) _ => apply files_uniform
  end.

Ltac files_auto := cbv zeta; repeat files_step.

Lemma files_standardize (x : loc) (mean std : R) : files_within (standardize x mean std) [].
Proof.
  assert (Hsub : files_within (sub_ x mean) []).
  { unfold sub_. eapply files_eq; [files_auto|reflexivity]. }
  assert (Hdiv : forall y, files_within (div_ y std) []).
  { intros y. unfold div_. destruct (Req_dec_T std 0); [apply files_lift|].
    eapply files_eq; [files_auto|reflexivity]. }
  unfold standardize. eapply files_eq; [by apply files_bind|reflexivity].
Qed.

Lemma files_plot_dataset (data : loc) (labels : matrix) (name : string) :
  files_within (plot_dataset data labels name) ["fig/" +:+ name +:+ ".png"].
Proof. unfold plot_dataset. eapply files_eq; [files_auto|reflexivity]. Qed.

Lemma files_train_visualization (net : matrix -> result matrix) (losses : list R)
    (testX : loc) (testY : matrix) :
  files_within (train_visualization net losses testX testY)
               ["fig/loss.png"; "fig/confmat.png"; "fig/predictions.png"].
Proof. unfold train_visualization. eapply files_eq; [files_auto|reflexivity]. Qed.

Lemma files_load_data (plotting : bool) :
  files_within (load_data plotting)
               (if plotting then ["fig/train.png"; "fig/test.png"] else []).
Proof.
  unfold load_data. destruct plotting.
  - eapply files_eq.
    + do 8 (apply files_bind; [files_step|intros ?]).
      apply files_bind; [|intros ?].
      * apply files_bind; [apply files_plot_dataset|intros ?; apply files_plot_dataset].
      * apply files_bind; [apply files_standardize|intros ?].
        apply files_bind; [apply files_standardize|intros ?]. apply files_mret.
    + reflexivity.
  - eapply files_eq.
    + do 8 (apply files_bind; [files_step|intros ?]).
      apply files_bind; [apply files_mret|intros ?].
      apply files_bind; [apply files_standardize|intros ?].
      apply files_bind; [apply files_standardize|intros ?]. apply files_mret.
    + reflexivity.
Qed.

(** C9. The image files written are the five fixed relative paths:
    [train_visualization] saves fig/loss.png, fig/confmat.png and
    fig/predictions.png, in that order; [plot_dataset] saves fig/NAME.png,
    and [load_data] calls it with the names train and test when plotting is
    asked for, and saves nothing otherwise.  A run that raises has saved an
    initial part of these files. *)
Theorem saved_files_fixed :
  (forall net losses testX testY,
     files_within (train_visualization net losses testX testY)
                  ["fig/loss.png"; "fig/confmat.png"; "fig/predictions.png"]) /\
  (forall data labels,
     files_within (plot_dataset data labels "train") ["fig/train.png"] /\
     files_within (plot_dataset data labels "test") ["fig/test.png"]) /\
  files_within (load_data true) ["fig/train.png"; "fig/test.png"] /\
  files_within (load_data false) [].
Proof.
  split; [exact files_train_visualization|].
  split; [intros data labels; split; apply files_plot_dataset|].
  split; [exact (files_load_data true)|exact (files_load_data false)].
Qed.

(** ** The confusion matrix *)

Lemma count_true_cons (b : bool) (l : list bool) :
  count_true (b :: l) = ((if b then 1 else 0) + count_true l)%Z.
Proof.
  unfold count_true. destruct b.
  - rewrite filter_cons_True by reflexivity. cbn [length]. lia.
  - rewrite filter_cons_False by discriminate. lia.
Qed.

Lemma mask_counts (pred truth : list Z) :
  length pred = length truth ->
  (forall p, p ∈ pred -> p = 0%Z \/ p = 1%Z) ->
  (forall t, t ∈ truth -> t = 0%Z \/ t = 1%Z) ->
  (count_true (mask pred truth 0 0) + count_true (mask pred truth 1 0)
   + count_true (mask pred truth 0 1) + count_true (mask pred truth 1 1))%Z
  = Z.of_nat (length pred).
Proof.
  revert truth. induction pred as [|p pred IH]; intros [|t truth] Hlen Hp Ht;
    try discriminate; [reflexivity|].
  injection Hlen as Hlen.
  specialize (IH truth Hlen ltac:(intros; apply Hp; by right)
                ltac:(intros; apply Ht; by right)).
  unfold mask, eq_scalar in *. cbn [map zip_with length].
  rewrite !count_true_cons, Nat2Z.inj_succ.
  destruct (Hp p (list_elem_of_here _ _)) as [-> | ->],
           (Ht t (list_elem_of_here _ _)) as [-> | ->]; cbn; lia.
Qed.

Lemma logical_and_same_length (a b : list bool) :
  length a = length b -> logical_and a b = Ok (zip_with andb a b).
Proof. intros H. unfold logical_and. by rewrite H, Nat.eqb_refl. Qed.

Lemma eq_scalar_length (v : list Z) (k : Z) : length (eq_scalar v k) = length v.
Proof. apply length_map. Qed.

Lemma grows_bind {A B : Type} (m : M A) (k : A -> M B) :
  grows m -> (forall a, grows (k a)) -> grows (m ≫= k).
Proof.
  intros Hm Hk w. specialize (Hm w). rewrite run_bind.
  destruct (m w) as [[a|e] w1]; cbn [snd] in *; [|assumption].
  etrans; [exact Hm|apply Hk].
Qed.

Lemma grows_emit (ev : event) : grows (emit ev).
Proof. intros w. by apply prefix_app_r. Qed.

Lemma grows_lift {A : Type} (r : result A) : grows (lift r).
Proof. by intros w. Qed.

Ltac grows_step :=
  lazymatch goal with
  | |- grows (mbind _ _) => apply grows_bind; [|intros ?]
  | |- grows (emit _) => apply grows_emit
  | |- grows (lift _) => apply grows_lift
  end.

Lemma grows_train_visualization_tail (x : matrix) (b00 b01 b10 b11 : list bool) :
  grows (emit (Text 0 0 (count_true b00));;
         emit (Text 0 1 (count_true b10));;
         emit (Text 1 0 (count_true b01));;
         emit (Text 1 1 (count_true b11));;
         emit (Xlabel "True Class");;
         emit (Ylabel "Predicted class");;
         emit (Print ("Plot of confusion matrix saved under " +:+ "fig/confmat.png"));;
         emit (Savefig "fig/confmat.png");;
         emit Figure;;
         x0 ← lift (gather x (nonzero b00) 0);
         y0 ← lift (gather x (nonzero b00) 1);
         emit (Scatter x0 y0 (Single "r") (Some (2/10)) (Some "class 0"));;
         x1 ← lift (gather x (nonzero b11) 0);
         y1 ← lift (gather x (nonzero b11) 1);
         emit (Scatter x1 y1 (Single "b") (Some (2/10)) (Some "class 1"));;
         xe ← lift (gather x (nonzero b01 ++ nonzero b10) 0);
         ye ← lift (gather x (nonzero b01 ++ nonzero b10) 1);
         emit (Scatter xe ye (Single "k") None (Some "errors"));;
         emit Legend;;
         emit (Print ("Plot of test predictions saved under " +:+ "fig/predictions.png"));;
         emit (Savefig "fig/predictions.png")).
Proof. repeat grows_step. Qed.

(** C7. In [train_visualization], when the predicted classes (argmax of the
    network output) and the true classes (argmax of the targets) of the [n]
    test points are all 0 or 1, the matrix shown holds the sizes of the four
    masks b00, b10, b01, b11, and its entries sum to [n]. *)
Theorem confusion_counts_sum (net : matrix -> result matrix) (losses : list R)
    (testX : loc) (testY x out : matrix) (pred truth : list Z) (n : nat) (w : world) :
  heap w !! testX = Some x -> net x = Ok out ->
  argmax1 out = Ok pred -> argmax1 testY = Ok truth ->
  length pred = n -> length truth = n ->
  (forall p, p ∈ pred -> p = 0%Z \/ p = 1%Z) ->
  (forall t, t ∈ truth -> t = 0%Z \/ t = 1%Z) ->
  exists b00 b10 b01 b11 : Z,
    b00 = count_true (mask pred truth 0 0) /\ b10 = count_true (mask pred truth 1 0) /\
    b01 = count_true (mask pred truth 0 1) /\ b11 = count_true (mask pred truth 1 1) /\
    Matshow [[b00; b10]; [b01; b11]] "tab10"
      ∈ trace (train_visualization net losses testX testY w).2 /\
    (b00 + b10 + b01 + b11)%Z = Z.of_nat n.
Proof.
  intros Hx Hnet Hpred Htruth Hn Hn' Hp Ht.
  eexists _, _, _, _. do 4 (split; [reflexivity|]). split.
  - unfold train_visualization. cbv zeta. do 7 run_emit.
    rewrite (run_bind_Ok _ _ _ _ _ (run_read testX x (World (heap w) _ _ _) Hx)).
    rewrite Hnet. run_lift. rewrite Hpred. run_lift. rewrite Htruth. run_lift.
    do 4 (rewrite logical_and_same_length
            by (rewrite !eq_scalar_length; congruence); run_lift).
    do 2 run_emit.
    eapply elem_of_prefix; [|apply grows_train_visualization_tail].
    cbn [trace]. apply elem_of_app. right. apply list_elem_of_here.
  - rewrite <- Hn. apply mask_counts; [congruence|assumption|assumption].
Qed.

(** ** A run of train_visualization *)

Ltac decide_Rlt :=
  repeat match goal with
         | |- context [Rlt_dec ?a ?b] => destruct (Rlt_dec a b); try lra
         end.

Lemma tv_pred : argmax1 tv_x = Ok [0; 1; 0]%Z.
Proof. unfold argmax1, tv_x. cbn. decide_Rlt. reflexivity. Qed.

Lemma tv_truth : argmax1 tv_y = Ok [0; 1; 1]%Z.
Proof. unfold argmax1, tv_y. cbn. decide_Rlt. reflexivity. Qed.

Lemma confusion_counts_sum_witness :
  exists b00 b10 b01 b11 : Z,
    b00 = count_true (mask [0; 1; 0]%Z [0; 1; 1]%Z 0 0) /\
    b10 = count_true (mask [0; 1; 0]%Z [0; 1; 1]%Z 1 0) /\
    b01 = count_true (mask [0; 1; 0]%Z [0; 1; 1]%Z 0 1) /\
    b11 = count_true (mask [0; 1; 0]%Z [0; 1; 1]%Z 1 1) /\
    Matshow [[b00; b10]; [b01; b11]] "tab10"
      ∈ trace (train_visualization tv_net [1] 0%nat tv_y tv_world).2 /\
    (b00 + b10 + b01 + b11)%Z = Z.of_nat 3.
Proof.
  apply (confusion_counts_sum tv_net [1] 0%nat tv_y tv_x tv_x [0; 1; 0]%Z [0; 1; 1]%Z 3
           tv_world).
  - reflexivity.
  - reflexivity.
  - exact tv_pred.
  - exact tv_truth.
  - reflexivity.
  - reflexivity.
  - intros p. rewrite !elem_of_cons, elem_of_nil. intuition.
  - intros t. rewrite !elem_of_cons, elem_of_nil. intuition.
Defined.

(** On these inputs [train_visualization] returns, having saved its three
    files. *)
Lemma tv_returns :
  (train_visualization tv_net [1] 0%nat tv_y tv_world).1 = Ok tt /\
  saved_files (trace (train_visualization tv_net [1] 0%nat tv_y tv_world).2)
  = ["fig/loss.png"; "fig/confmat.png"; "fig/predictions.png"].
Proof.
  assert (H : (train_visualization tv_net [1] 0%nat tv_y tv_world).1 = Ok tt).
  { unfold train_visualization, tv_world. cbv zeta. do 7 run_emit.
    rewrite (run_bind_Ok _ _ _ _ _ (run_read 0%nat tv_x (World [tv_x] _ _ _) eq_refl)).
    unfold tv_net at 1. run_lift. rewrite tv_pred. run_lift. rewrite tv_truth. run_lift.
    do 4 (rewrite logical_and_same_length by reflexivity; run_lift).
    reflexivity. }
  split; [exact H|].
  destruct (files_train_visualization tv_net [1] 0%nat tv_y tv_world)
    as (l & Hl & _ & Hok).
  rewrite Hl, (Hok tt H). reflexivity.
Qed.

Lemma saved_files_fixed_witness :
  saved_files (trace (train_visualization tv_net [1] 0%nat tv_y tv_world).2)
  = ["fig/loss.png"; "fig/confmat.png"; "fig/predictions.png"] /\
  saved_files (trace (load_data true demo).2) = ["fig/train.png"; "fig/test.png"] /\
  saved_files (trace (load_data false demo).2) = [].
Proof.
  destruct saved_files_fixed as (Htv & _ & Hplot & Hquiet).
  split; [|split].
  - destruct (Htv tv_net [1] 0%nat tv_y tv_world) as (l & Hl & _ & Hok).
    rewrite Hl, (Hok tt (proj1 tv_returns)). reflexivity.
  - destruct (Hplot demo) as (l & Hl & _ & Hok).
    destruct (demo_run true) as (m & s & _ & _ & _ & Hrun).
    rewrite Hl, (Hok _ (f_equal fst Hrun)). reflexivity.
  - destruct (Hquiet demo) as (l & Hl & _ & Hok).
    destruct (demo_run false) as (m & s & _ & _ & _ & Hrun).
    rewrite Hl, (Hok _ (f_equal fst Hrun)). reflexivity.
Defined.

(** * Further properties *)

(** ** to_one_hot on any vector of classes *)

Lemma mapR_length {A B : Type} (f : A -> result B) l bs :
  mapR f l = Ok bs -> length bs = length l.
Proof.
  revert bs. induction l as [|a l IH]; intros bs H.
  - injection H as <-. reflexivity.
  - rewrite mapR_cons in H. destruct (f a) as [b|]; [|discriminate].
    rewrite bind_Ok in H. destruct (mapR f l) as [bs'|]; [|discriminate].
    injection H as <-. cbn. f_equal. by apply IH.
Qed.

Lemma mapR_lookup {A B : Type} (f : A -> result B) l bs i a :
  mapR f l = Ok bs -> l !! i = Some a -> exists b, bs !! i = Some b /\ f a = Ok b.
Proof.
  revert bs i. induction l as [|a' l IH]; intros bs i H Hi; [discriminate|].
  rewrite mapR_cons in H. destruct (f a') as [b|] eqn:Hb; [|discriminate].
  rewrite bind_Ok in H. destruct (mapR f l) as [bs'|]; [|discriminate].
  injection H as <-. destruct i as [|i].
  - injection Hi as <-. eauto.
  - cbn in Hi |- *. by eapply IH.
Qed.

Lemma mapR_returns {A B : Type} (f : A -> result B) l :
  (exists bs, mapR f l = Ok bs) <-> forall a, a ∈ l -> exists b, f a = Ok b.
Proof.
  induction l as [|a l IH].
  - split; [intros _ a Ha; by apply elem_of_nil in Ha|]. intros _. by exists [].
  - rewrite mapR_cons. split.
    + intros [bs H] a' Ha'. destruct (f a) as [b|] eqn:Hb; [|discriminate].
      rewrite bind_Ok in H. destruct (mapR f l) as [bs'|] eqn:Hbs; [|discriminate].
      apply elem_of_cons in Ha' as [->|Ha']; [eauto|].
      apply (proj1 IH); [eauto|assumption].
    + intros H. destruct (H a (list_elem_of_here _ _)) as [b ->]. rewrite bind_Ok.
      destruct (proj2 IH) as [bs ->]; [intros a' Ha'; apply H; by right|].
      rewrite bind_Ok. eauto.
Qed.

Lemma wrap_index_Some (n : nat) (k : Z) :
  (exists j, wrap_index n k = Some j) <-> (- Z.of_nat n <= k < Z.of_nat n)%Z.
Proof.
  unfold wrap_index.
  destruct (Z.leb_spec 0 k), (Z.ltb_spec k (Z.of_nat n)),
           (Z.leb_spec (- Z.of_nat n) k), (Z.ltb_spec k 0); cbn;
    (split; [intros [j Hj]; first [discriminate|lia]|intros; first [lia|eauto]]).
Qed.

Lemma wrap_index_mod (n : nat) (k : Z) (j : nat) :
  wrap_index n k = Some j -> Z.of_nat j = (k mod Z.of_nat n)%Z.
Proof.
  unfold wrap_index.
  destruct (Z.leb_spec 0 k), (Z.ltb_spec k (Z.of_nat n)),
           (Z.leb_spec (- Z.of_nat n) k), (Z.ltb_spec k 0); cbn;
    intros [= <-]; try lia.
  - rewrite Z.mod_small by lia. lia.
  - rewrite <- (Z.mod_add k 1) by lia. rewrite Z.mod_small by lia. lia.
Qed.

Lemma Rsum_replicate_zero (n : nat) : Rsum (replicate n 0) = 0.
Proof. induction n as [|n IH]; [reflexivity|]. cbn [replicate]. rewrite Rsum_cons, IH. lra. Qed.

Lemma Rsum_one_hot (C j : nat) : (j < C)%nat -> Rsum (<[j := 1]> (replicate C 0)) = 1.
Proof.
  revert j. induction C as [|C IH]; intros j Hj; [lia|].
  destruct j as [|j]; cbn [replicate insert list_insert]; rewrite Rsum_cons.
  - rewrite Rsum_replicate_zero. lra.
  - change (list_insert j 1 (replicate C 0)) with (<[j := 1]> (replicate C 0)).
    rewrite IH by lia. lra.
Qed.

(** The first maximum of a row of zeros with a single one. *)
Lemma argmax_from_one_hot (n j bi i : nat) :
  (j < n)%nat -> argmax_from 0 bi i (<[j := 1]> (replicate n 0)) = (i + j)%nat.
Proof.
  revert j bi i. induction n as [|n IH]; intros j bi i Hj; [lia|].
  destruct j as [|j]; cbn [replicate insert list_insert argmax_from].
  - destruct (Rlt_dec 0 1) as [_|H]; [|exfalso; lra].
    rewrite argmax_from_keep; [lia|].
    intros e [-> _]%elem_of_replicate. lra.
  - destruct (Rlt_dec 0 0) as [H|_]; [exfalso; lra|].
    change (list_insert j 1 (replicate n 0)) with (<[j := 1]> (replicate n 0)).
    rewrite IH by lia. lia.
Qed.

Lemma argmax_row_one_hot (C j : nat) :
  (j < C)%nat -> argmax_row (<[j := 1]> (replicate C 0)) = Ok (Z.of_nat j).
Proof.
  intros Hj. destruct C as [|C]; [lia|].
  destruct j as [|j]; cbn [replicate insert list_insert argmax_row].
  - rewrite argmax_from_keep; [reflexivity|].
    intros e [-> _]%elem_of_replicate. lra.
  - change (list_insert j 1 (replicate C 0)) with (<[j := 1]> (replicate C 0)).
    rewrite argmax_from_one_hot by lia. do 2 f_equal.
Qed.

Lemma one_hot_row_Ok (C : nat) (k : Z) (row : list R) :
  one_hot_row C k = Ok row ->
  exists j, wrap_index C k = Some j /\ row = <[j := 1]> (replicate C 0).
Proof.
  unfold one_hot_row. destruct (wrap_index C k) as [j|]; [|discriminate].
  intros [= <-]. eauto.
Qed.

Lemma one_hot_row_Raise (C : nat) (k : Z) (e : exn) :
  one_hot_row C k = Raise e -> e = IndexError.
Proof. unfold one_hot_row. destruct (wrap_index C k); [discriminate|]. by intros [= <-]. Qed.

(** X1. Whenever [to_one_hot y] returns, the matrix has [len(y)] rows and as
    many columns as [y] has distinct values; row [i] sums to 1, with its 1 at
    the index [y[i]] (counted from the end when negative) and 0 elsewhere. *)
Theorem to_one_hot_shape (y : list Z) (Y : matrix) :
  to_one_hot y = Ok Y ->
  length Y = length y /\
  forall i k, y !! i = Some k ->
    exists row j,
      Y !! i = Some row /\ length row = length (unique y) /\
      Z.of_nat j = (k mod Z.of_nat (length (unique y)))%Z /\
      row !! j = Some 1 /\
      (forall j', (j' < length row)%nat -> j' <> j -> row !! j' = Some 0) /\
      Rsum row = 1.
Proof.
  rewrite to_one_hot_rows. intros H. split; [by eapply mapR_length|].
  intros i k Hi. destruct (mapR_lookup _ _ _ _ _ H Hi) as (row & Hrow & Hk).
  unfold one_hot_row in Hk.
  destruct (wrap_index (length (unique y)) k) as [j|] eqn:Hw; [|discriminate].
  injection Hk as <-. pose proof (wrap_index_lt _ _ _ Hw) as Hj.
  exists (<[j := 1]> (replicate (length (unique y)) 0)), j.
  split; [assumption|]. rewrite length_insert, length_replicate.
  split; [reflexivity|]. split; [by apply wrap_index_mod|].
  split; [apply list_lookup_insert_eq; by rewrite length_replicate|].
  split; [|by apply Rsum_one_hot].
  intros j' Hj' Hne. rewrite list_lookup_insert_ne by congruence.
  by apply lookup_replicate_2.
Qed.

Lemma to_one_hot_shape_witness :
  length [[0; 0; 1]; [1; 0; 0]; [0; 0; 1]] = 3%nat /\
  forall i k, [2; 0; -1]%Z !! i = Some k ->
    exists row j,
      [[0; 0; 1]; [1; 0; 0]; [0; 0; 1]] !! i = Some row /\
      length row = length (unique [2; 0; -1]%Z) /\
      Z.of_nat j = (k mod Z.of_nat (length (unique [2; 0; -1]%Z)))%Z /\
      row !! j = Some 1 /\
      (forall j', (j' < length row)%nat -> j' <> j -> row !! j' = Some 0) /\
      Rsum row = 1.
Proof.
  apply (to_one_hot_shape [2; 0; -1]%Z [[0; 0; 1]; [1; 0; 0]; [0; 0; 1]]).
  reflexivity.
Defined.

Lemma to_one_hot_returns (y : list Z) :
  (exists Y, to_one_hot y = Ok Y) <->
  forall k, k ∈ y ->
    (- Z.of_nat (length (unique y)) <= k < Z.of_nat (length (unique y)))%Z.
Proof.
  rewrite to_one_hot_rows, mapR_returns. split; intros H k Hk.
  - apply wrap_index_Some. destruct (H k Hk) as [row Hrow].
    apply one_hot_row_Ok in Hrow as (j & Hj & _). eauto.
  - destruct (proj2 (wrap_index_Some _ _) (H k Hk)) as [j Hj].
    unfold one_hot_row. rewrite Hj. eauto.
Qed.

Lemma to_one_hot_Raise (y : list Z) (e : exn) : to_one_hot y = Raise e -> e = IndexError.
Proof.
  rewrite to_one_hot_rows. generalize (length (unique y)) as C. intros C.
  induction y as [|k y IH]; [discriminate|].
  rewrite mapR_cons. destruct (one_hot_row C k) as [row|e'] eqn:Hk.
  - rewrite bind_Ok. destruct (mapR (one_hot_row C) y); [discriminate|].
    rewrite bind_Raise. exact IH.
  - rewrite bind_Raise. intros [= <-]. by eapply one_hot_row_Raise.
Qed.

(** X2. [to_one_hot y] returns exactly when every class of [y] is an index
    into as many columns as [y] has distinct values, negative indices
    included; otherwise it raises [IndexError], and nothing else. *)
Theorem to_one_hot_returns_iff (y : list Z) :
  ((exists Y, to_one_hot y = Ok Y) <->
   forall k, k ∈ y ->
     (- Z.of_nat (length (unique y)) <= k < Z.of_nat (length (unique y)))%Z) /\
  (forall e, to_one_hot y = Raise e -> e = IndexError).
Proof. split; [apply to_one_hot_returns|apply to_one_hot_Raise]. Qed.

Lemma to_one_hot_argmax_mod (y : list Z) (Y : matrix) :
  to_one_hot y = Ok Y ->
  argmax1 Y = Ok (map (fun k => (k mod Z.of_nat (length (unique y)))%Z) y).
Proof.
  rewrite to_one_hot_rows. generalize (length (unique y)) as C. intros C.
  revert Y. induction y as [|k y IH]; intros Y H.
  - injection H as <-. reflexivity.
  - rewrite mapR_cons in H. destruct (one_hot_row C k) as [row|] eqn:Hk; [|discriminate].
    apply one_hot_row_Ok in Hk as (j & Hw & ->).
    rewrite bind_Ok in H. destruct (mapR (one_hot_row C) y) as [rows|]; [|discriminate].
    injection H as <-. unfold argmax1. rewrite mapR_cons.
    rewrite argmax_row_one_hot by (by eapply wrap_index_lt).
    rewrite bind_Ok. fold (argmax1 rows). rewrite (IH rows eq_refl), bind_Ok.
    cbn [map]. by rewrite (wrap_index_mod _ _ _ Hw).
Qed.

Lemma to_one_hot_argmax_nonneg (y : list Z) (Y : matrix) :
  to_one_hot y = Ok Y -> (forall k, k ∈ y -> (0 <= k)%Z) -> argmax1 Y = Ok y.
Proof.
  intros H Hpos. rewrite (to_one_hot_argmax_mod y Y H). f_equal.
  rewrite <- (map_id y) at 2. apply map_ext_in. intros k Hk%list_elem_of_In.
  pose proof (proj1 (to_one_hot_returns y) (ex_intro _ Y H) k Hk).
  pose proof (Hpos k Hk). apply Z.mod_small. lia.
Qed.

(** X3. Decoding undoes encoding: when [to_one_hot y] returns [Y] for a
    non-empty [y], the argmax of each row of [Y] is the class reduced modulo
    the number of columns, hence [y] itself when no class is negative. *)
Theorem to_one_hot_argmax_round_trip (y : list Z) (Y : matrix) :
  y <> [] -> to_one_hot y = Ok Y ->
  argmax1 Y = Ok (map (fun k => (k mod Z.of_nat (length (unique y)))%Z) y) /\
  ((forall k, k ∈ y -> (0 <= k)%Z) -> argmax1 Y = Ok y).
Proof.
  intros _ H. split; [by apply to_one_hot_argmax_mod|by apply to_one_hot_argmax_nonneg].
Qed.

Lemma to_one_hot_argmax_round_trip_witness :
  [2; 0; -1]%Z <> [] /\ [1; 0; 1]%Z <> [] /\
  to_one_hot [2; 0; -1]%Z = Ok [[0; 0; 1]; [1; 0; 0]; [0; 0; 1]] /\
  to_one_hot [1; 0; 1]%Z = Ok [[0; 1]; [1; 0]; [0; 1]] /\
  argmax1 [[0; 0; 1]; [1; 0; 0]; [0; 0; 1]]
  = Ok (map (fun k => (k mod Z.of_nat (length (unique [2; 0; -1]%Z)))%Z) [2; 0; -1]%Z) /\
  argmax1 [[0; 1]; [1; 0]; [0; 1]] = Ok [1; 0; 1]%Z.
Proof.
  split; [discriminate|]. split; [discriminate|].
  split; [reflexivity|]. split; [reflexivity|]. split.
  - apply (to_one_hot_argmax_round_trip [2; 0; -1]%Z [[0; 0; 1]; [1; 0; 0]; [0; 0; 1]]).
    + discriminate.
    + reflexivity.
  - apply (to_one_hot_argmax_round_trip [1; 0; 1]%Z [[0; 1]; [1; 0]; [0; 1]]).
    + discriminate.
    + reflexivity.
    + intros k. rewrite !elem_of_cons, elem_of_nil. lia.
Defined.

(** ** The dataset that load_data returns *)

Lemma sample_row_length (g : nat -> R) (pos n m : nat) (row : list R) :
  row ∈ sample g pos n m -> length row = m.
Proof.
  unfold sample. change (map ?f (seq 0 n)) with (f <$> seq 0 n).
  intros (i & -> & _)%list_elem_of_fmap. by rewrite length_map, length_seq.
Qed.

Lemma disk_labels_length (x : matrix) : length (disk_labels x) = length x.
Proof. rewrite disk_labels_rows. apply length_map. Qed.

(** X5. When [load_data] returns, the two point tensors have 1000 rows of 2
    coordinates and the two label matrices have 1000 rows. *)
Theorem load_data_shapes (plotting : bool) (w w' : world) (a b : loc)
    (trainY testY : matrix) :
  load_data plotting w = (Ok (a, trainY, b, testY), w') ->
  exists trainX testX,
    heap w' !! a = Some trainX /\ heap w' !! b = Some testX /\
    length trainX = 1000%nat /\ length testX = 1000%nat /\
    (forall row, row ∈ trainX -> length row = 2%nat) /\
    (forall row, row ∈ testX -> length row = 2%nat) /\
    length trainY = 1000%nat /\ length testY = 1000%nat.
Proof.
  intros (trainY' & testY' & m & s & HtrY & HteY & _ & _ & _ & [= -> <- -> <-] & ->)
    %load_data_Ok_inv.
  eexists _, _. cbn [heap].
  split; [by rewrite lookup_app_r, Nat.sub_diag by lia|].
  split.
  { rewrite lookup_app_r by lia.
    by replace (S (length (heap w)) - length (heap w))%nat with 1%nat by lia. }
  unfold tmap. rewrite !length_map. unfold train_raw, test_raw in *.
  rewrite !sample_length, <- N_eq.
  split; [reflexivity|]. split; [reflexivity|].
  assert (Hrows : forall (f : R -> R) g pos (row : list R),
            row ∈ map (map f) (sample g pos N 2) -> length row = 2%nat).
  { intros f g pos row. change (map (map f) ?l) with (map f <$> l).
    intros (r & -> & Hr)%list_elem_of_fmap.
    by rewrite length_map, (sample_row_length _ _ _ _ _ Hr). }
  split; [apply Hrows|]. split; [apply Hrows|].
  rewrite to_one_hot_rows in HtrY, HteY.
  apply mapR_length in HtrY, HteY.
  rewrite disk_labels_length, sample_length in HtrY, HteY. by split.
Qed.

Lemma load_data_shapes_witness :
  exists trainX testX,
    heap (load_data false demo).2 !! 0%nat = Some trainX /\
    heap (load_data false demo).2 !! 1%nat = Some testX /\
    length trainX = 1000%nat /\ length testX = 1000%nat /\
    (forall row, row ∈ trainX -> length row = 2%nat) /\
    (forall row, row ∈ testX -> length row = 2%nat) /\
    length (map hot2 (disk_labels (train_raw demo))) = 1000%nat /\
    length (map hot2 (disk_labels (test_raw demo))) = 1000%nat.
Proof.
  destruct (demo_run false) as (m & s & _ & _ & _ & Hrun).
  rewrite Hrun. exact (load_data_shapes false demo _ _ _ _ _ Hrun).
Defined.

(** ** Label vectors on which the encoder raises *)

Lemma unique_nonempty (y : list Z) (k : Z) : k ∈ y -> (0 < length (unique y))%nat.
Proof.
  intros Hk. unfold unique. apply elem_of_remove_dups in Hk.
  destruct (remove_dups y); [by apply elem_of_nil in Hk|cbn; lia].
Qed.

Lemma unique_all_ones (y : list Z) :
  y <> [] -> (forall k, k ∈ y -> k = 1%Z) -> length (unique y) = 1%nat.
Proof.
  intros Hne Hall. unfold unique.
  assert (Hp : remove_dups y ≡ₚ [1%Z]).
  { apply NoDup_Permutation; [apply NoDup_remove_dups|apply NoDup_singleton|].
    intros k. rewrite elem_of_remove_dups, list_elem_of_singleton. split; [apply Hall|].
    intros ->. destruct y as [|k y]; [congruence|].
    rewrite <- (Hall k (list_elem_of_here _ _)). apply list_elem_of_here. }
  by rewrite Hp.
Qed.

(** On labels, the encoder raises exactly on a non-empty vector of ones. *)
Lemma to_one_hot_labels_raise (y : list Z) :
  (forall k, k ∈ y -> k = 0%Z \/ k = 1%Z) ->
  (exists e, to_one_hot y = Raise e) <-> y <> [] /\ forall k, k ∈ y -> k = 1%Z.
Proof.
  intros Hbin. split.
  - intros [e He]. split; [by intros ->|].
    intros k Hk. destruct (Hbin k Hk) as [-> | ->]; [exfalso|reflexivity].
    destruct (proj2 (to_one_hot_returns y)) as [Y HY]; [|congruence].
    intros k' Hk'. destruct (decide (1%Z ∈ y)) as [H1|H1].
    + rewrite (unique_binary y); [destruct (Hbin k' Hk') as [-> | ->]; lia|].
      intros j. split; [apply Hbin|]. by intros [-> | ->].
    + pose proof (unique_nonempty y 0 Hk).
      destruct (Hbin k' Hk') as [-> | ->]; [lia|contradiction].
  - intros [Hne Hall]. exists IndexError.
    destruct y as [|k y]; [congruence|].
    apply (to_one_hot_raises _ 1%Z).
    + rewrite <- (Hall k (list_elem_of_here _ _)). apply list_elem_of_here.
    + rewrite (unique_all_ones _ Hne Hall). lia.
Qed.

(** ** train_visualization: the confusion matrix shown *)

(** The events of the loss plot. *)
Lemma run_loss_plot {A : Type} (losses : list R) (k : M A) (w : world) :
  (emit Figure;;
   emit (Plot (map Z.of_nat (seq 1 (length losses))) losses "k--");;
   emit (Xlabel "Epoch");;
   emit (Ylabel "Loss");;
   emit Grid;;
   emit (Print ("Plot of training loss saved under " +:+ "fig/loss.png"));;
   emit (Savefig "fig/loss.png");;
   k) w
  = k (World (heap w) (rng w) (rng_pos w)
             (trace w ++ [Figure;
                          Plot (map Z.of_nat (seq 1 (length losses))) losses "k--";
                          Xlabel "Epoch"; Ylabel "Loss"; Grid;
                          Print ("Plot of training loss saved under " +:+ "fig/loss.png");
                          Savefig "fig/loss.png"])).
Proof. do 7 run_emit. by rewrite <- !app_assoc. Qed.

Lemma train_visualization_matshow (net : matrix -> result matrix) (losses : list R)
    (testX : loc) (testY x out : matrix) (pred truth : list Z) (w : world) :
  heap w !! testX = Some x -> net x = Ok out ->
  argmax1 out = Ok pred -> argmax1 testY = Ok truth -> length pred = length truth ->
  Matshow [[count_true (mask pred truth 0 0); count_true (mask pred truth 1 0)];
           [count_true (mask pred truth 0 1); count_true (mask pred truth 1 1)]] "tab10"
    ∈ trace (train_visualization net losses testX testY w).2.
Proof.
  intros Hx Hnet Hpred Htruth Hlen.
  unfold train_visualization. cbv zeta. rewrite run_loss_plot.
  rewrite (run_bind_Ok _ _ _ _ _ (run_read testX x (World (heap w) _ _ _) Hx)).
  rewrite Hnet. run_lift. rewrite Hpred. run_lift. rewrite Htruth. run_lift.
  do 4 (rewrite logical_and_same_length
          by (rewrite !eq_scalar_length; congruence); run_lift).
  do 2 run_emit.
  eapply elem_of_prefix; [|apply grows_train_visualization_tail].
  cbn [trace]. apply elem_of_app. right. apply list_elem_of_here.
Qed.

Lemma mask_diagonal (pred truth : list Z) :
  length pred = length truth ->
  (forall p, p ∈ pred -> p = 0%Z \/ p = 1%Z) ->
  (forall t, t ∈ truth -> t = 0%Z \/ t = 1%Z) ->
  (count_true (mask pred truth 0 0) + count_true (mask pred truth 1 1))%Z
  = agreements pred truth.
Proof.
  revert truth. induction pred as [|p pred IH]; intros [|t truth] Hlen Hp Ht;
    try discriminate; [reflexivity|].
  injection Hlen as Hlen.
  specialize (IH truth Hlen ltac:(intros; apply Hp; by right)
                ltac:(intros; apply Ht; by right)).
  unfold agreements, mask, eq_scalar in *. cbn [map zip_with].
  rewrite !count_true_cons.
  destruct (Hp p (list_elem_of_here _ _)) as [-> | ->],
           (Ht t (list_elem_of_here _ _)) as [-> | ->]; cbn; lia.
Qed.

Lemma agreements_refl (v : list Z) : agreements v v = Z.of_nat (length v).
Proof.
  unfold agreements. induction v as [|a v IH]; [reflexivity|].
  cbn [zip_with length]. rewrite count_true_cons, Z.eqb_refl, IH. lia.
Qed.

(** X16. The confusion matrix shows the accuracy: with [n] predicted and [n]
    true classes in {0, 1}, the diagonal of the matrix shown adds up to the
    number of test points whose predicted class is the true one, and the two
    other entries to the number of the others; they are 0 when every
    prediction is right. *)
Theorem confusion_matrix_accuracy (net : matrix -> result matrix) (losses : list R)
    (testX : loc) (testY x out : matrix) (pred truth : list Z) (n : nat) (w : world) :
  heap w !! testX = Some x -> net x = Ok out ->
  argmax1 out = Ok pred -> argmax1 testY = Ok truth ->
  length pred = n -> length truth = n ->
  (forall p, p ∈ pred -> p = 0%Z \/ p = 1%Z) ->
  (forall t, t ∈ truth -> t = 0%Z \/ t = 1%Z) ->
  exists b00 b10 b01 b11 : Z,
    Matshow [[b00; b10]; [b01; b11]] "tab10"
      ∈ trace (train_visualization net losses testX testY w).2 /\
    (b00 + b11)%Z = agreements pred truth /\
    (b10 + b01)%Z = (Z.of_nat n - agreements pred truth)%Z /\
    (pred = truth -> b10 = 0%Z /\ b01 = 0%Z).
Proof.
  intros Hx Hnet Hpred Htruth Hn Hn' Hp Ht.
  assert (Hlen : length pred = length truth) by congruence.
  eexists _, _, _, _.
  split; [exact (train_visualization_matshow net losses testX testY x out pred truth w
                   Hx Hnet Hpred Htruth Hlen)|].
  pose proof (mask_counts pred truth Hlen Hp Ht) as Hsum.
  pose proof (mask_diagonal pred truth Hlen Hp Ht) as Hdiag.
  split; [exact Hdiag|]. split; [lia|].
  intros <-. rewrite agreements_refl in Hdiag.
  assert (H10 : (0 <= count_true (mask pred pred 1 0))%Z) by (unfold count_true; lia).
  assert (H01 : (0 <= count_true (mask pred pred 0 1))%Z) by (unfold count_true; lia).
  lia.
Qed.

Lemma confusion_matrix_accuracy_witness :
  exists b00 b10 b01 b11 : Z,
    Matshow [[b00; b10]; [b01; b11]] "tab10"
      ∈ trace (train_visualization tv_net [1] 0%nat tv_y tv_world).2 /\
    (b00 + b11)%Z = agreements [0; 1; 0]%Z [0; 1; 1]%Z /\
    (b10 + b01)%Z = (Z.of_nat 3 - agreements [0; 1; 0]%Z [0; 1; 1]%Z)%Z /\
    ([0; 1; 0]%Z = [0; 1; 1]%Z -> b10 = 0%Z /\ b01 = 0%Z).
Proof.
  apply (confusion_matrix_accuracy tv_net [1] 0%nat tv_y tv_x tv_x
           [0; 1; 0]%Z [0; 1; 1]%Z 3 tv_world).
  - reflexivity.
  - reflexivity.
  - exact tv_pred.
  - exact tv_truth.
  - reflexivity.
  - reflexivity.
  - intros p. rewrite !elem_of_cons, elem_of_nil. intuition.
  - intros t. rewrite !elem_of_cons, elem_of_nil. intuition.
Defined.

(** * Properties of the float32 kernels *)

(** ** standardize *)

Lemma F32_run_standardize (x : loc) (t : F32.tensor) (mean std : spec_float)
    (h : list F32.tensor) :
  h !! x = Some t ->
  F32.standardize x mean std h
  = (Ok x, <[x := F32.tmap (fun e => F32.div (F32.sub e mean) std) t]> h).
Proof.
  intros H. unfold F32.standardize, F32.sub_, F32.div_.
  unfold mbind, F32.M_bind, mret, F32.M_ret, F32.read, F32.write.
  assert (Hx : (<[x := F32.tmap (fun e => F32.sub e mean) t]> h) !! x
               = Some (F32.tmap (fun e => F32.sub e mean) t))
    by (apply list_lookup_insert_eq; by eapply lookup_lt_Some).
  rewrite H. cbv beta iota zeta. rewrite H. cbv beta iota zeta.
  rewrite Hx. cbv beta iota zeta. rewrite Hx. cbv beta iota zeta.
  rewrite list_insert_insert_eq. do 2 f_equal.
  unfold F32.tmap. rewrite map_map. apply map_ext. intros row. apply map_map.
Qed.

Lemma F32_tmap_lookup (f : spec_float -> spec_float) (t : F32.tensor) (i : nat)
    (row : list spec_float) :
  t !! i = Some row ->
  exists row', F32.tmap f t !! i = Some row' /\ length row' = length row /\
    forall j e, row !! j = Some e -> row' !! j = Some (f e).
Proof.
  intros Hi. exists (map f row). unfold F32.tmap.
  change (map (map f) t) with (map f <$> t). rewrite list_lookup_fmap, Hi.
  split; [reflexivity|]. split; [apply length_map|].
  intros j e Hj. change (map f row) with (f <$> row). by rewrite list_lookup_fmap, Hj.
Qed.

Lemma F32_tmap_elements (f : spec_float -> spec_float) (t : F32.tensor) (i j : nat)
    (row' : list spec_float) (e' : spec_float) :
  F32.tmap f t !! i = Some row' -> row' !! j = Some e' ->
  exists row e, t !! i = Some row /\ row !! j = Some e /\ e' = f e.
Proof.
  unfold F32.tmap. change (map (map f) t) with (map f <$> t).
  rewrite list_lookup_fmap. destruct (t !! i) as [row|]; [|discriminate].
  cbn [fmap option_fmap option_map]. intros [= <-].
  change (map f row) with (f <$> row). rewrite list_lookup_fmap.
  destruct (row !! j) as [e|] eqn:Hj; [|discriminate].
  cbn [fmap option_fmap option_map]. intros [= He]. by exists row, e.
Qed.

(** C4, as amended.  [standardize x mean std] works in place and returns its
    argument: the heap keeps its size, no other tensor changes, the tensor
    [x] keeps its shape, and each element [e] of it becomes [(e - mean) / std]
    as float32 computes it, the difference rounded and then the quotient
    rounded; this holds for every [std]. *)
Theorem standardize_in_place_float32 (x : loc) (t : F32.tensor) (mean std : spec_float)
    (h : list F32.tensor) :
  h !! x = Some t ->
  exists h' t',
    F32.standardize x mean std h = (Ok x, h') /\
    length h' = length h /\ (forall y, y <> x -> h' !! y = h !! y) /\
    h' !! x = Some t' /\ length t' = length t /\
    forall i row, t !! i = Some row ->
      exists row', t' !! i = Some row' /\ length row' = length row /\
        forall j e, row !! j = Some e ->
          row' !! j = Some (SFdiv 24 128 (SFsub 24 128 e mean) std).
Proof.
  intros H. eexists _, _. split; [by apply F32_run_standardize|].
  split; [apply length_insert|].
  split; [intros y Hy; by apply list_lookup_insert_ne|].
  split; [apply list_lookup_insert_eq; by eapply lookup_lt_Some|].
  split; [unfold F32.tmap; apply length_map|].
  intros i row Hi. by apply F32_tmap_lookup.
Qed.

(** The tensor [[3, 5]] standardised with mean 1 and std 2 is [[1, 2]], in
    the same cell; the tensor next to it is as it was. *)
Lemma standardize_in_place_float32_witness :
  [[[f32_three; f32_five]]; [[f32_2p24]]] !! 0%nat = Some [[f32_three; f32_five]] /\
  F32.standardize 0%nat f32_one f32_two [[[f32_three; f32_five]]; [[f32_2p24]]]
  = (Ok 0%nat, [[[f32_one; f32_two]]; [[f32_2p24]]]) /\
  exists h' t',
    F32.standardize 0%nat f32_one f32_two [[[f32_three; f32_five]]; [[f32_2p24]]] = (Ok 0%nat, h') /\
    length h' = 2%nat /\ (forall y, y <> 0%nat -> h' !! y = [[[f32_three; f32_five]]; [[f32_2p24]]] !! y) /\
    h' !! 0%nat = Some t' /\ length t' = 1%nat /\
    forall i row, [[f32_three; f32_five]] !! i = Some row ->
      exists row', t' !! i = Some row' /\ length row' = length row /\
        forall j e, row !! j = Some e ->
          row' !! j = Some (SFdiv 24 128 (SFsub 24 128 e f32_one) f32_two).
Proof.
  split; [reflexivity|]. split; [vm_compute; reflexivity|].
  exact (standardize_in_place_float32 0%nat [[f32_three; f32_five]] f32_one f32_two
           [[[f32_three; f32_five]]; [[f32_2p24]]] eq_refl).
Defined.

Lemma SF2R_one : SF2R f32_one = 1.
Proof.
  unfold SF2R, f32_one, powerRZ. change (Pos.to_nat 23) with 23%nat. simpl pow. lra.
Qed.

Lemma SF2R_minus_one : SF2R f32_minus_one = -1.
Proof.
  unfold SF2R, f32_minus_one, powerRZ. change (Pos.to_nat 23) with 23%nat. simpl pow. lra.
Qed.

Lemma SF2R_2p24 : SF2R f32_2p24 = 16777216.
Proof.
  unfold SF2R, f32_2p24, powerRZ. change (Pos.to_nat 1) with 1%nat. simpl pow. lra.
Qed.

(** The value stored is the rounded one, not the exact quotient: 2^24 + 1
    is no float32, and the element 2^24 standardised with mean -1 and std 1
    stays 2^24, where [(e - mean) / std] is 2^24 + 1. *)
Lemma standardize_rounds :
  F32.standardize 0%nat f32_minus_one f32_one [[[f32_2p24]]] = (Ok 0%nat, [[[f32_2p24]]]) /\
  SF2R f32_2p24 = 16777216 /\
  (SF2R f32_2p24 - SF2R f32_minus_one) / SF2R f32_one = 16777217.
Proof.
  split; [vm_compute; reflexivity|]. split; [apply SF2R_2p24|].
  rewrite SF2R_2p24, SF2R_minus_one, SF2R_one. lra.
Qed.

(** The quotient by a zero: an infinity, or a nan. *)
Lemma SFdiv_zero (d : spec_float) (sg : bool) :
  non_finite (SFdiv 24 128 d (S754_zero sg)) = true.
Proof. by destruct d. Qed.

(** C5. [standardize] does not test [std]: on a tensor of the heap it
    returns its argument whatever [std] is and the division is performed on
    every element; with [std] a zero the quotients are those of a division by
    zero, each element of the tensor is left an infinity or a nan. *)
Theorem standardize_unguarded_float32 (x : loc) (t : F32.tensor) (mean std : spec_float)
    (h : list F32.tensor) :
  h !! x = Some t ->
  exists t',
    F32.standardize x mean std h = (Ok x, <[x := t']> h) /\
    (forall i j row e, t !! i = Some row -> row !! j = Some e ->
       exists row', t' !! i = Some row' /\
         row' !! j = Some (SFdiv 24 128 (SFsub 24 128 e mean) std)) /\
    (forall sg, std = S754_zero sg ->
       forall i j row' e', t' !! i = Some row' -> row' !! j = Some e' ->
         non_finite e' = true).
Proof.
  intros H. eexists. split; [by apply F32_run_standardize|]. split.
  - intros i j row e Hi Hj.
    destruct (F32_tmap_lookup (fun e => F32.div (F32.sub e mean) std) t i row Hi)
      as (row' & Hrow' & _ & Hcell).
    exists row'. split; [exact Hrow'|]. by apply Hcell.
  - intros sg -> i j row' e' Hi Hj.
    destruct (F32_tmap_elements _ _ _ _ _ _ Hi Hj) as (row & e & _ & _ & ->).
    apply SFdiv_zero.
Qed.

(** The tensor [[3, 5]] standardised with mean 1 and std 0: the call returns
    and the tensor is [[inf, inf]]. *)
Lemma standardize_unguarded_float32_witness :
  [[[f32_three; f32_five]]] !! 0%nat = Some [[f32_three; f32_five]] /\
  F32.standardize 0%nat f32_one F32.zero [[[f32_three; f32_five]]]
  = (Ok 0%nat, [[[S754_infinity false; S754_infinity false]]]) /\
  exists t',
    F32.standardize 0%nat f32_one F32.zero [[[f32_three; f32_five]]]
    = (Ok 0%nat, <[0%nat := t']> [[[f32_three; f32_five]]]) /\
    (forall i j row e, [[f32_three; f32_five]] !! i = Some row -> row !! j = Some e ->
       exists row', t' !! i = Some row' /\
         row' !! j = Some (SFdiv 24 128 (SFsub 24 128 e f32_one) F32.zero)) /\
    (forall sg, F32.zero = S754_zero sg ->
       forall i j row' e', t' !! i = Some row' -> row' !! j = Some e' ->
         non_finite e' = true).
Proof.
  split; [reflexivity|]. split; [vm_compute; reflexivity|].
  exact (standardize_unguarded_float32 0%nat [[f32_three; f32_five]] f32_one F32.zero
           [[[f32_three; f32_five]]] eq_refl).
Defined.

(** ** The labels of load_data *)

(** The threshold of the comparison: [r2] rounded to float32. *)
Lemma F32_r2 : F32.to_float32 F32.r2 = S754_finite false 10680707 (-26).
Proof. vm_compute. reflexivity. Qed.

(** Rounding a positive number never gives the negative zero. *)
Lemma binary_round_aux_positive (m e : Z) (l : location) :
  binary_round_aux 24 128 false m e l <> S754_zero true.
Proof.
  unfold binary_round_aux.
  destruct (shr_fexp 24 128 m e l) as [mrs' e'].
  destruct (shr_fexp 24 128 _ e' loc_Exact) as [mrs'' e''].
  destruct (shr_m mrs'') as [|p|p]; [discriminate| |discriminate].
  by destruct (e'' <=? 128 - 24)%Z.
Qed.

Lemma F32_square_sign (d : spec_float) : F32.mul d d <> S754_zero true.
Proof.
  destruct d as [s|s| |s m e]; cbn; try discriminate.
  - by destruct s.
  - rewrite xorb_nilpotent. apply binary_round_aux_positive.
Qed.

Lemma F32_add_zero (a : spec_float) : a <> S754_zero true -> F32.add F32.zero a = a.
Proof. destruct a as [[|]|s| |s m e]; intros H; try reflexivity. congruence. Qed.

(** The label of one point. *)
Lemma F32_disk_labels_lookup (x : F32.tensor) (i : nat) (px py : spec_float) :
  x !! i = Some [px; py] ->
  F32.disk_labels x !! i = Some (if inside32 px py then 1%Z else 0%Z).
Proof.
  intros H. unfold F32.disk_labels, F32.lt_long, F32.sum_axis1, F32.pow2, F32.tmap,
    F32.sub_rows.
  rewrite !map_map. change (map ?f x) with (f <$> x).
  rewrite list_lookup_fmap, H. cbn [fmap option_fmap option_map zip_with F32.center map foldl].
  rewrite F32_add_zero by apply F32_square_sign.
  rewrite F32_r2. reflexivity.
Qed.

Lemma F32_disk_labels_binary (x : F32.tensor) (k : Z) :
  k ∈ F32.disk_labels x -> k = 0%Z \/ k = 1%Z.
Proof.
  unfold F32.disk_labels, F32.lt_long. change (map ?f ?l) with (f <$> l).
  intros (d & -> & _)%list_elem_of_fmap. destruct (SFltb _ _); auto.
Qed.

Lemma F32_disk_labels_length (x : F32.tensor) : length (F32.disk_labels x) = length x.
Proof.
  unfold F32.disk_labels, F32.lt_long, F32.sum_axis1, F32.pow2, F32.tmap, F32.sub_rows.
  by rewrite !length_map.
Qed.

Lemma F32_sample_length (g : nat -> spec_float) (pos n m : nat) :
  length (F32.sample g pos n m) = n.
Proof. unfold F32.sample. by rewrite length_map, length_seq. Qed.

Lemma F32_sample_lookup (g : nat -> spec_float) (pos n i : nat) :
  (i < n)%nat ->
  F32.sample g pos n 2 !! i = Some [g (pos + 2 * i)%nat; g (pos + 2 * i + 1)%nat].
Proof.
  intros Hi. unfold F32.sample.
  change (map ?f (seq 0 n)) with (f <$> seq 0 n).
  rewrite list_lookup_fmap, lookup_seq_lt by assumption.
  cbn [fmap option_fmap option_map seq map].
  replace (pos + (0 + i) * 2 + 0)%nat with (pos + 2 * i)%nat by lia.
  by replace (pos + (0 + i) * 2 + 1)%nat with (pos + 2 * i + 1)%nat by lia.
Qed.

(** The labels of a sample, point by point. *)
Lemma F32_sample_labels (g : nat -> spec_float) (pos n i : nat) :
  (i < n)%nat ->
  F32.disk_labels (F32.sample g pos n 2) !! i
  = Some (if inside_at g pos i then 1%Z else 0%Z).
Proof.
  intros Hi. unfold inside_at. apply F32_disk_labels_lookup. by apply F32_sample_lookup.
Qed.

Lemma hot2_lookup (y : list Z) (i : nat) (k : Z) :
  y !! i = Some k -> map hot2 y !! i = Some (hot2 k).
Proof. intros H. change (map hot2 y) with (hot2 <$> y). by rewrite list_lookup_fmap, H. Qed.

(** A vector of labels with both values is encoded in two columns. *)
Lemma to_one_hot_two_columns (y : list Z) (Y : matrix) :
  (forall k, k ∈ y -> k = 0%Z \/ k = 1%Z) -> 0%Z ∈ y -> 1%Z ∈ y ->
  to_one_hot y = Ok Y -> Y = map hot2 y.
Proof.
  intros Hbin H0 H1 HY. rewrite to_one_hot_binary in HY; [congruence|].
  intros k. split; [apply Hbin|]. by intros [-> | ->].
Qed.

(** A vector of zeros only is encoded in one column. *)
Lemma to_one_hot_one_column (y : list Z) (Y : matrix) :
  y <> [] -> (forall k, k ∈ y -> k = 0%Z) ->
  to_one_hot y = Ok Y -> Y = replicate (length y) [1].
Proof.
  intros Hne Hall HY.
  assert (Hy : y = replicate (length y) 0%Z).
  { apply list_eq. intros i. destruct (y !! i) as [k|] eqn:Hk.
    - rewrite (Hall k (list_elem_of_lookup_2 _ _ _ Hk)). symmetry.
      apply lookup_replicate_2. by eapply lookup_lt_Some.
    - symmetry. apply lookup_ge_None. rewrite length_replicate.
      by apply lookup_ge_None. }
  rewrite Hy, to_one_hot_zeros in HY.
  - congruence.
  - destruct y; [congruence|cbn; lia].
Qed.

Lemma F32_load_data_generate_inv (g : nat -> spec_float) (pos : nat)
    (trainX testX : F32.tensor) (trainY testY : matrix) :
  F32.load_data_generate g pos = Ok (trainX, trainY, testX, testY) ->
  trainX = F32.sample g pos 1000 2 /\ testX = F32.sample g (pos + 2000) 1000 2 /\
  to_one_hot (F32.disk_labels trainX) = Ok trainY /\
  to_one_hot (F32.disk_labels testX) = Ok testY.
Proof.
  unfold F32.load_data_generate. cbv zeta. rewrite N_eq.
  change (1000 * 2)%nat with 2000%nat.
  destruct (to_one_hot (F32.disk_labels (F32.sample g pos 1000 2))) as [Y1|] eqn:H1;
    [|discriminate].
  destruct (to_one_hot (F32.disk_labels (F32.sample g (pos + 2000) 1000 2))) as [Y2|] eqn:H2;
    [|discriminate].
  rewrite !bind_Ok. intros [= <- <- <- <-]. auto.
Qed.

(** The label matrix of one sample. *)
Lemma F32_sample_labelled (g : nat -> spec_float) (off : nat) (Y : matrix) :
  to_one_hot (F32.disk_labels (F32.sample g off 1000 2)) = Ok Y ->
  labelled32 g off (F32.sample g off 1000 2) Y.
Proof.
  intros HY. set (X := F32.sample g off 1000 2) in *.
  assert (Hlab : forall i, (i < 1000)%nat ->
            F32.disk_labels X !! i = Some (if inside_at g off i then 1%Z else 0%Z)).
  { intros i Hi. by apply F32_sample_labels. }
  assert (Hlen : length (F32.disk_labels X) = 1000%nat).
  { unfold X. by rewrite F32_disk_labels_length, F32_sample_length. }
  split; [apply F32_sample_length|]. split.
  { rewrite to_one_hot_rows in HY. apply mapR_length in HY. congruence. }
  intros i Hi. split; [by apply F32_sample_lookup|]. split; [by apply Hlab|]. split.
  - intros (a & b & Ha & Hb & Hin & Hout).
    assert (H1 : 1%Z ∈ F32.disk_labels X).
    { apply list_elem_of_lookup. exists a. by rewrite (Hlab a Ha), Hin. }
    assert (H0 : 0%Z ∈ F32.disk_labels X).
    { apply list_elem_of_lookup. exists b. by rewrite (Hlab b Hb), Hout. }
    rewrite (to_one_hot_two_columns _ Y (F32_disk_labels_binary X) H0 H1 HY).
    rewrite (hot2_lookup _ _ _ (Hlab i Hi)). by destruct (inside_at g off i).
  - intros Hnone.
    assert (Hall : forall k, k ∈ F32.disk_labels X -> k = 0%Z).
    { intros k (a & Ha)%list_elem_of_lookup.
      assert (Ha' : (a < 1000)%nat) by (rewrite <- Hlen; by eapply lookup_lt_Some).
      rewrite (Hlab a Ha'), (Hnone a Ha') in Ha. congruence. }
    rewrite (to_one_hot_one_column _ Y) by
      (try assumption; intros Hnil; rewrite Hnil in Hlen; discriminate).
    apply lookup_replicate_2. by rewrite Hlen.
Qed.

Lemma F32_load_data_generate_labelled (g : nat -> spec_float) (pos : nat)
    (trainX testX : F32.tensor) (trainY testY : matrix) :
  F32.load_data_generate g pos = Ok (trainX, trainY, testX, testY) ->
  labelled32 g pos trainX trainY /\ labelled32 g (pos + 2000) testX testY.
Proof.
  intros (-> & -> & H1 & H2)%F32_load_data_generate_inv.
  split; by apply F32_sample_labelled.
Qed.

Lemma F32_load_data_generate_run (g : nat -> spec_float) (pos : nat) (trainY testY : matrix) :
  to_one_hot (F32.disk_labels (F32.sample g pos 1000 2)) = Ok trainY ->
  to_one_hot (F32.disk_labels (F32.sample g (pos + 2000) 1000 2)) = Ok testY ->
  F32.load_data_generate g pos
  = Ok (F32.sample g pos 1000 2, trainY, F32.sample g (pos + 2000) 1000 2, testY).
Proof.
  intros H1 H2. unfold F32.load_data_generate. cbv zeta. rewrite N_eq.
  change (1000 * 2)%nat with 2000%nat. by rewrite H1, H2.
Qed.

(** No point of the stream [corner32] passes the test. *)
Lemma corner32_outside (off a : nat) : Nat.Even off -> inside_at corner32 off a = false.
Proof.
  intros [q ->]. unfold inside_at, corner32.
  destruct (Nat.eqb_spec (2 * q + 2 * a) 1) as [?|_]; [lia|].
  by destruct (Nat.eqb_spec (2 * q + 2 * a + 1) 1).
Qed.

Lemma corner32_labels (off : nat) :
  Nat.Even off ->
  to_one_hot (F32.disk_labels (F32.sample corner32 off 1000 2)) = Ok (replicate 1000 [1]).
Proof.
  intros Hoff.
  assert (Hlen : length (F32.disk_labels (F32.sample corner32 off 1000 2)) = 1000%nat).
  { by rewrite F32_disk_labels_length, F32_sample_length. }
  assert (Hy : F32.disk_labels (F32.sample corner32 off 1000 2) = replicate 1000 0%Z).
  { apply list_eq. intros i. destruct (Nat.lt_ge_cases i 1000) as [Hi|Hi].
    - rewrite F32_sample_labels, corner32_outside by assumption.
      symmetry. by apply lookup_replicate_2.
    - rewrite !(proj2 (lookup_ge_None _ _)); [done| |].
      + by rewrite length_replicate.
      + by rewrite Hlen. }
  rewrite Hy. apply to_one_hot_zeros. lia.
Qed.

(** The points of [corner32] are all outside the disk: [load_data] gets as
    far as the label matrices, and the row of the first training point,
    (0, 0.25) with label 0, is [[1]], one column, not the two-column
    indicator [[1, 0]]. *)
Lemma load_data_single_column :
  exists trainX trainY testX testY,
    F32.load_data_generate corner32 0 = Ok (trainX, trainY, testX, testY) /\
    trainX !! 0%nat = Some [F32.zero; f32_quarter] /\
    inside32 F32.zero f32_quarter = false /\
    F32.disk_labels trainX !! 0%nat = Some 0%Z /\
    trainY !! 0%nat = Some [1] /\
    trainY !! 0%nat <> Some [1; 0].
Proof.
  eexists _, _, _, _. split.
  { apply F32_load_data_generate_run; apply corner32_labels.
    - exists 0%nat. reflexivity.
    - exists 1000%nat. reflexivity. }
  split; [by rewrite F32_sample_lookup by lia|].
  split; [vm_compute; reflexivity|].
  split; [by rewrite F32_sample_labels, corner32_outside by (lia || by exists 0%nat)|].
  split; [by apply lookup_replicate_2; lia|].
  rewrite lookup_replicate_2 by lia. discriminate.
Qed.

(** C1, as amended.  When [load_data] has built its label matrices, each
    set has 1000 points, point [i] being the two values drawn for it; its
    label is 1 when the squared distance to (0.5, 0.5), computed in float32,
    is below the float32 nearest to 1/(2 pi), and 0 otherwise; in a set where
    both labels occur the label is the two-column indicator row, [[0, 1]] for
    1 and [[1, 0]] for 0 (in a set where no point is inside, the rows have one
    column). *)
Theorem load_data_labels_float32 (g : nat -> spec_float) (pos : nat)
    (trainX testX : F32.tensor) (trainY testY : matrix) :
  F32.load_data_generate g pos = Ok (trainX, trainY, testX, testY) ->
  labelled32 g pos trainX trainY /\ labelled32 g (pos + 2000) testX testY.
Proof. apply F32_load_data_generate_labelled. Qed.

(** Both labels occur in each set drawn from [demo32]. *)
Lemma demo32_inside (off a : nat) :
  (off mod 4 = 0)%nat -> inside_at demo32 off (2 * a) = true.
Proof.
  intros Hoff. unfold inside_at, demo32.
  replace (off + 2 * (2 * a))%nat with (off + a * 4)%nat by lia.
  replace (off + a * 4 + 1)%nat with (off + 1 + a * 4)%nat by lia.
  rewrite !Nat.Div0.mod_add. rewrite Nat.Div0.add_mod, Hoff. 
  change ((0 + 1 mod 4) mod 4)%nat with 1%nat. cbv beta iota. vm_compute. reflexivity.
Qed.

Lemma demo32_outside (off a : nat) :
  (off mod 4 = 0)%nat -> inside_at demo32 off (2 * a + 1) = false.
Proof.
  intros Hoff. unfold inside_at, demo32.
  replace (off + 2 * (2 * a + 1))%nat with (off + 2 + a * 4)%nat by lia.
  replace (off + 2 + a * 4 + 1)%nat with (off + 3 + a * 4)%nat by lia.
  rewrite !Nat.Div0.mod_add.
  rewrite (Nat.Div0.add_mod off 2), (Nat.Div0.add_mod off 3), Hoff.
  change ((0 + 2 mod 4) mod 4)%nat with 2%nat.
  change ((0 + 3 mod 4) mod 4)%nat with 3%nat. cbv beta iota. vm_compute. reflexivity.
Qed.

Lemma demo32_labels (off : nat) :
  (off mod 4 = 0)%nat ->
  exists Y, to_one_hot (F32.disk_labels (F32.sample demo32 off 1000 2)) = Ok Y.
Proof.
  intros Hoff. eexists. apply to_one_hot_binary. intros k. split.
  - apply F32_disk_labels_binary.
  - intros [-> | ->]; apply list_elem_of_lookup.
    + exists 1%nat. rewrite F32_sample_labels by lia.
      pose proof (demo32_outside off 0 Hoff) as Ho.
      change (2 * 0 + 1)%nat with 1%nat in Ho. by rewrite Ho.
    + exists 0%nat. rewrite F32_sample_labels by lia.
      pose proof (demo32_inside off 0 Hoff) as Hi.
      change (2 * 0)%nat with 0%nat in Hi. by rewrite Hi.
Qed.

Lemma demo32_run :
  exists trainY testY,
    F32.load_data_generate demo32 0
    = Ok (F32.sample demo32 0 1000 2, trainY, F32.sample demo32 2000 1000 2, testY).
Proof.
  destruct (demo32_labels 0 eq_refl) as [trainY H1].
  destruct (demo32_labels 2000 eq_refl) as [testY H2].
  exists trainY, testY. by apply F32_load_data_generate_run.
Qed.

(** On [demo32] the first training point, (0.5, 0.5), has the row [[0, 1]]
    and the second, (0, 0), the row [[1, 0]]. *)
Lemma load_data_labels_float32_witness :
  exists trainX trainY testX testY,
    F32.load_data_generate demo32 0 = Ok (trainX, trainY, testX, testY) /\
    (labelled32 demo32 0 trainX trainY /\ labelled32 demo32 (0 + 2000) testX testY) /\
    trainX !! 0%nat = Some [F32.half; F32.half] /\ trainY !! 0%nat = Some [0; 1] /\
    trainX !! 1%nat = Some [F32.zero; F32.zero] /\ trainY !! 1%nat = Some [1; 0].
Proof.
  destruct demo32_run as (trainY & testY & Hrun).
  pose proof (load_data_labels_float32 demo32 0 _ _ _ _ Hrun) as Hlab.
  eexists _, _, _, _. split; [exact Hrun|]. split; [exact Hlab|].
  destruct Hlab as [(_ & _ & Htr) _].
  assert (Hboth : exists a b, (a < 1000)%nat /\ (b < 1000)%nat /\
            inside_at demo32 0 a = true /\ inside_at demo32 0 b = false).
  { exists 0%nat, 1%nat. repeat split; lia || (vm_compute; reflexivity). }
  destruct (Htr 0%nat ltac:(lia)) as (Hx0 & _ & Hy0 & _).
  destruct (Htr 1%nat ltac:(lia)) as (Hx1 & _ & Hy1 & _).
  split; [exact Hx0|]. split; [exact (Hy0 Hboth)|].
  split; [exact Hx1|]. exact (Hy1 Hboth).
Defined.

(** Rounding decides at the circle: the point (14050775, 11957641) * 2^-24
    is inside the disk, its squared distance to the centre is even below the
    float32 threshold, but the float32 sum of the squares is the threshold
    itself and the test fails. *)
Lemma disk_edge_rounding :
  let px := S754_finite false 14050775 (-24) in
  let py := S754_finite false 11957641 (-24) in
  (SF2R px - 1/2) ^ 2 + (SF2R py - 1/2) ^ 2 < SF2R (S754_finite false 10680707 (-26)) /\
  inside32 px py = false.
Proof.
  cbv zeta. split; [|vm_compute; reflexivity].
  unfold SF2R, powerRZ.
  change (Pos.to_nat 24) with 24%nat. change (Pos.to_nat 26) with 26%nat.
  simpl pow. lra.
Qed.

(** ** When the labelling raises *)

Lemma F32_labels_raise (g : nat -> spec_float) (off : nat) :
  (exists e, to_one_hot (F32.disk_labels (F32.sample g off 1000 2)) = Raise e) <->
  forall a, (a < 1000)%nat -> inside_at g off a = true.
Proof.
  assert (Hlen : length (F32.disk_labels (F32.sample g off 1000 2)) = 1000%nat).
  { by rewrite F32_disk_labels_length, F32_sample_length. }
  rewrite to_one_hot_labels_raise by apply F32_disk_labels_binary. split.
  - intros [_ Hall] a Ha.
    pose proof (F32_sample_labels g off 1000 a Ha) as Hl.
    apply list_elem_of_lookup_2, Hall in Hl. by destruct (inside_at g off a).
  - intros Hall. split.
    + intros Hnil. rewrite Hnil in Hlen. discriminate.
    + intros k (a & Ha)%list_elem_of_lookup.
      assert (Ha' : (a < 1000)%nat) by (rewrite <- Hlen; by eapply lookup_lt_Some).
      rewrite (F32_sample_labels g off 1000 a Ha'), (Hall a Ha') in Ha. congruence.
Qed.

(** X8. The labelling of [load_data] (lines 29 to 35) raises exactly when
    every training point, or every test point, passes the float32 test of
    the disk: all labels of that set are 1 and the encoder has a single
    column; the error is [IndexError]. *)
Theorem load_data_index_error_float32 (g : nat -> spec_float) (pos : nat) :
  (F32.load_data_generate g pos = Raise IndexError <->
   (forall a, (a < 1000)%nat -> inside_at g pos a = true) \/
   (forall a, (a < 1000)%nat -> inside_at g (pos + 2000) a = true)) /\
  (forall e, F32.load_data_generate g pos = Raise e -> e = IndexError).
Proof.
  pose proof (F32_labels_raise g pos) as Htr.
  pose proof (F32_labels_raise g (pos + 2000)) as Hte.
  unfold F32.load_data_generate. cbv zeta. rewrite N_eq.
  change (1000 * 2)%nat with 2000%nat.
  destruct (to_one_hot (F32.disk_labels (F32.sample g pos 1000 2))) as [Y1|e1] eqn:H1.
  - rewrite bind_Ok.
    destruct (to_one_hot (F32.disk_labels (F32.sample g (pos + 2000) 1000 2)))
      as [Y2|e2] eqn:H2.
    + rewrite bind_Ok. split; [|discriminate]. split; [discriminate|].
      intros [Hall|Hall].
      * apply Htr in Hall as [e ?]. discriminate.
      * apply Hte in Hall as [e ?]. discriminate.
    + rewrite bind_Raise. pose proof (to_one_hot_Raise _ _ H2) as ->.
      split; [|by intros e [= <-]]. split; [|reflexivity].
      intros _. right. apply Hte. by exists IndexError.
  - rewrite bind_Raise. pose proof (to_one_hot_Raise _ _ H1) as ->.
    split; [|by intros e [= <-]]. split; [|reflexivity].
    intros _. left. apply Htr. by exists IndexError.
Qed.
